(** * A real-time chat relay (main.go): model and verified properties

    The server keeps three shared stores: the connection registry [users]
    (guarded by [userMu]), the message log [messages] with its id counter
    [msgID] (guarded by [msgMu]) and the session directory [sessions].
    One goroutine runs [wsHandler] per websocket connection; the two HTTP
    handlers [sessionsHandler] and [messagesHandler] run concurrently with
    them.

    The model is a small-step interleaving semantics.  Every goroutine has a
    program counter that names the source line it is about to execute; an
    event picks the goroutine that moves and carries whatever the
    environment supplies (a received frame, a clock reading).  The [msgMu]
    critical section is modelled statement by statement with an explicit
    lock holder.  Each [userMu] critical section is one step: every access
    to [users] lies inside such a section and none of them can leave it
    abnormally, so the lock is free whenever another goroutine moves. *)

From stdpp Require Import gmap strings list fin_maps.
From Stdlib Require Import ZArith Lia Ascii.

Local Open Scope Z_scope.

(** ** Go primitives *)

(** [time.Time], kept abstract as an instant on the integer line. *)
Definition Time : Type := Z.

(** Largest [int64]; also the largest length of a Go slice on a 64-bit
    platform ([len] has type [int]). *)
Definition max_int64 : Z := 2 ^ 63 - 1.

(** Two's complement wrap-around of [int64] arithmetic. *)
Definition wrap64 (z : Z) : Z := (z + 2 ^ 63) mod 2 ^ 64 - 2 ^ 63.

(** [string(b)] for a byte [b]: the UTF-8 encoding of the code point whose
    number is [b].  Bytes below 0x80 give a one-byte string, the others a
    two-byte sequence. *)
Definition string_of_byte (b : ascii) : string :=
  let n := N_of_ascii b in
  if (n <? 128)%N then String b EmptyString
  else String (ascii_of_N (N.lor 192 (N.shiftr n 6)))
         (String (ascii_of_N (N.lor 128 (N.land n 63))) EmptyString).

(** [string(s[0])]; [None] is the run-time panic "index out of range" that
    indexing the empty string raises. *)
Definition firstByte (s : string) : option string :=
  string_of_byte <$> String.get 0 s.

(** ** Data model *)

Module User.
Record t : Type := mk {
  Username : string;
  Avatar : string;
  WS : nat                (* the websocket connection, by its handle *)
}.
End User.

Module Message.
Record t : Type := mk {
  ID : Z;
  From : string;
  To : string;
  Content : string;
  Timestamp : Time;
  IsRead : bool;
  Avatar : string
}.
End Message.

Module Session.
Record t : Type := mk {
  ID : string;
  Name : string;
  Avatar : string;
  IsGroup : bool;
  LastMsg : string;
  LastTime : Time;
  Unread : Z
}.
End Session.

#[global] Instance User_eq_dec : EqDecision User.t.
Proof. solve_decision. Defined.

#[global] Instance Message_eq_dec : EqDecision Message.t.
Proof. solve_decision. Defined.

#[global] Instance Session_eq_dec : EqDecision Session.t.
Proof. solve_decision. Defined.

(** ** The connection registry (lines 86-100) *)

(** [users[username] = &User{username, string(username[0]), ws}] *)
Definition register (username : string) (ws : nat)
    (us : gmap string User.t) : option (gmap string User.t) :=
  avatar ← firstByte username;
  Some (<[username := User.mk username avatar ws]> us).

(** [delete(users, username)] *)
Definition deregister (username : string)
    (us : gmap string User.t) : gmap string User.t :=
  delete username us.

(** ** Broadcast (lines 65-74)

    The body of the [range users] loop, over the entries in the order the
    iteration visits them.  Every [websocket.JSON.Send] is recorded as the
    pair of the handle written to and the message; its error is dropped. *)
Fixpoint fanout (msg : Message.t) (entries : list (string * User.t))
    : list (nat * Message.t) :=
  match entries with
  | [] => []
  | (_, u) :: rest =>
      if decide (User.Username u = Message.From msg)
      then fanout msg rest
      else (User.WS u, msg) :: fanout msg rest
  end.

(** Go leaves the iteration order of a map unspecified; the model visits
    the entries in the order of [map_to_list]. *)
Definition broadcast (msg : Message.t) (us : gmap string User.t)
    : list (nat * Message.t) :=
  fanout msg (map_to_list us).

(** ** Stamping a message (lines 111-115) *)

Definition setID (id : Z) (msg : Message.t) : Message.t :=
  Message.mk id (Message.From msg) (Message.To msg) (Message.Content msg)
    (Message.Timestamp msg) (Message.IsRead msg) (Message.Avatar msg).

(** Lines 113-115: timestamp, read flag and avatar.  [None] when
    [msg.From[0]] panics. *)
Definition stamp (now : Time) (msg : Message.t) : option Message.t :=
  avatar ← firstByte (Message.From msg);
  Some (Message.mk (Message.ID msg) (Message.From msg) (Message.To msg)
          (Message.Content msg) now false avatar).

(** ** Session summary (lines 119-126) *)

(** The [range sessions] scan: index of the first session whose id is
    [to], counted from [i]. *)
Fixpoint findSession (to : string) (ss : list Session.t) (i : nat)
    : option nat :=
  match ss with
  | [] => None
  | s :: rest =>
      if decide (Session.ID s = to) then Some i
      else findSession to rest (S i)
  end.

Definition withLastMsg (content : string) (s : Session.t) : Session.t :=
  Session.mk (Session.ID s) (Session.Name s) (Session.Avatar s)
    (Session.IsGroup s) content (Session.LastTime s) (Session.Unread s).

Definition withLastTime (t : Time) (s : Session.t) : Session.t :=
  Session.mk (Session.ID s) (Session.Name s) (Session.Avatar s)
    (Session.IsGroup s) (Session.LastMsg s) t (Session.Unread s).

(** [sessions[i].LastMsg = content]; [None] if [i] is out of range. *)
Definition setLastMsg (i : nat) (content : string)
    (ss : list Session.t) : option (list Session.t) :=
  s ← ss !! i; Some (<[i := withLastMsg content s]> ss).

(** [sessions[i].LastTime = t]; [None] if [i] is out of range. *)
Definition setLastTime (i : nat) (t : Time)
    (ss : list Session.t) : option (list Session.t) :=
  s ← ss !! i; Some (<[i := withLastTime t s]> ss).

(** The whole loop of lines 120-126 run without interference.  The flag
    tells whether the [break] was taken, that is, whether a session was
    found. *)
Definition updateSummary (recipient content : string) (timestamp : Time)
    (ss : list Session.t) : option (bool * list Session.t) :=
  match findSession recipient ss 0 with
  | Some i =>
      ss1 ← setLastMsg i content ss;
      ss2 ← setLastTime i timestamp ss1;
      Some (true, ss2)
  | None => Some (false, ss)
  end.

(** ** The HTTP handlers (lines 135-160) *)

Inductive Body : Type :=
| NoBody
| SessionsBody (ss : list Session.t)
| MessagesBody (ms : list Message.t).

Record Response : Type := mkResponse {
  status : Z;
  contentType : option string;
  body : Body
}.

(** [url.Values] and its [Get]: the first value of the key, or the empty
    string when the key is absent or has no value. *)
Definition Get (q : gmap string (list string)) (key : string) : string :=
  match q !! key with
  | Some (v :: _) => v
  | _ => ""%string
  end.

(** The loop of lines 150-155: [res] starts out empty and every message
    whose [To] is the session id is appended to it. *)
Definition collect (sessionID : string) (msgs : list Message.t)
    : list Message.t :=
  fold_left
    (fun res msg =>
       if decide (Message.To msg = sessionID) then res ++ [msg] else res)
    msgs [].

Definition badRequest : Response := mkResponse 400 None NoBody.

Definition jsonMessages (res : list Message.t) : Response :=
  mkResponse 200 (Some "application/json"%string) (MessagesBody res).

Definition sessionsHandler (ss : list Session.t) : Response :=
  mkResponse 200 (Some "application/json"%string) (SessionsBody ss).

(** [messagesHandler] run without interference on the log [msgs]. *)
Definition messagesHandler (q : gmap string (list string))
    (msgs : list Message.t) : Response :=
  let sessionID := Get q "session_id" in
  if decide (sessionID = ""%string) then badRequest
  else jsonMessages (collect sessionID msgs).

(** What the specification calls [history]: the messages of the log
    addressed to [r], in log order. *)
Definition history_spec (r : string) (log : list Message.t)
    : list Message.t :=
  filter (fun m => Message.To m = r) log.

(** ** Goroutines *)

(** How [wsHandler] left its body. *)
Inductive Exit : Type :=
| Returned
| Panicked.

(** Program counter of a [wsHandler] goroutine.  [Handshake], [Active]
    and [Closed] are the three states of the connection life cycle; the
    others are the statements between two receives. *)
Inductive ConnPC : Type :=
| Handshake                                       (* line 82, receiving *)
| Registering (username : string)                 (* lines 87-93 *)
| Active (username : string)                      (* line 105, receiving *)
| AtLock (username : string) (msg : Message.t)    (* line 110 *)
| AtAssignID (username : string) (msg : Message.t)(* line 111 *)
| AtIncr (username : string) (msg : Message.t)    (* line 112 *)
| AtStamp (username : string) (msg : Message.t)   (* lines 113-115 *)
| AtAppend (username : string) (msg : Message.t)  (* line 116 *)
| AtUnlock (username : string) (msg : Message.t)  (* line 117 *)
| AtScan (username : string) (msg : Message.t)    (* lines 120-122 *)
| AtLastTime (username : string) (msg : Message.t) (i : nat) (* line 123 *)
| AtBroadcast (username : string) (msg : Message.t) (* line 129 *)
| AtEcho (username : string) (msg : Message.t)    (* line 131 *)
| Closing (username : string) (e : Exit)          (* deferred, lines 97-99 *)
| Closed (e : Exit).                              (* ws.Close() done *)

(** Program counter of a [messagesHandler] or [sessionsHandler] request. *)
Inductive ReqPC : Type :=
| MAtLock (sessionID : string)                           (* line 149 *)
| MAtRead (sessionID : string)                           (* lines 150-155 *)
| MAtUnlock (sessionID : string) (res : list Message.t)  (* lines 156-159 *)
| ReqDone (resp : Response).

Inductive Tid : Type :=
| TConn (c : nat)
| TReq (r : nat).

#[global] Instance Tid_eq_dec : EqDecision Tid.
Proof. solve_decision. Defined.

Record State : Type := mkState {
  users : gmap string User.t;
  messages : list Message.t;
  sessions : list Session.t;
  msgID : Z;
  msgMu : option Tid;               (* the holder of msgMu, if locked *)
  conns : gmap nat ConnPC;          (* connections that left Handshake *)
  reqs : gmap nat ReqPC;            (* HTTP requests received so far *)
  wire : list (nat * Message.t)     (* every JSON.Send, oldest first *)
}.

Definition set_users (us : gmap string User.t) (s : State) : State :=
  mkState us (messages s) (sessions s) (msgID s) (msgMu s) (conns s)
    (reqs s) (wire s).

Definition set_messages (ms : list Message.t) (s : State) : State :=
  mkState (users s) ms (sessions s) (msgID s) (msgMu s) (conns s)
    (reqs s) (wire s).

Definition set_sessions (ss : list Session.t) (s : State) : State :=
  mkState (users s) (messages s) ss (msgID s) (msgMu s) (conns s)
    (reqs s) (wire s).

Definition set_msgID (id : Z) (s : State) : State :=
  mkState (users s) (messages s) (sessions s) id (msgMu s) (conns s)
    (reqs s) (wire s).

Definition set_msgMu (h : option Tid) (s : State) : State :=
  mkState (users s) (messages s) (sessions s) (msgID s) h (conns s)
    (reqs s) (wire s).

Definition set_pc (c : nat) (pc : ConnPC) (s : State) : State :=
  mkState (users s) (messages s) (sessions s) (msgID s) (msgMu s)
    (<[c := pc]> (conns s)) (reqs s) (wire s).

Definition set_req (r : nat) (pc : ReqPC) (s : State) : State :=
  mkState (users s) (messages s) (sessions s) (msgID s) (msgMu s)
    (conns s) (<[r := pc]> (reqs s)) (wire s).

Definition send (out : list (nat * Message.t)) (s : State) : State :=
  mkState (users s) (messages s) (sessions s) (msgID s) (msgMu s)
    (conns s) (reqs s) (wire s ++ out).

(** A connection that has not delivered its first frame yet is waiting in
    [Handshake]. *)
Definition pc_of (s : State) (c : nat) : ConnPC :=
  default Handshake (conns s !! c).

(** The session list after [init()] at time [t0]. *)
Definition publicChat (t0 : Time) : Session.t :=
  Session.mk "public-chat" "公共聊天室"
    "https://img.icons8.com/fluency/96/000000/chat.png" true
    "欢迎加入公共聊天室" t0 0.

Definition init_state (t0 : Time) : State :=
  mkState ∅ [] [publicChat t0] 1 None ∅ ∅ [].

(** ** Steps *)

Inductive Event : Type :=
| RecvIdentity (c : nat) (r : option string)
    (* websocket.Message.Receive returns on c; None is an error *)
| RecvFrame (c : nat) (r : option Message.t)
    (* websocket.JSON.Receive returns on c; None is an error *)
| Run (c : nat)
    (* connection c executes the statement it is at *)
| Clock (c : nat) (now : Time)
    (* connection c executes lines 113-115, time.Now() being now *)
| HttpSessions (r : nat)
    (* GET /api/sessions is served as request r *)
| HttpMessages (r : nat) (q : gmap string (list string))
    (* GET /api/messages arrives as request r with query q *)
| RunReq (r : nat).
    (* request r executes the statement it is at *)

(** One statement of [wsHandler] on connection [c].  [None]: the
    goroutine cannot move (it waits for a frame, or for [msgMu], or it
    has finished). *)
Definition run_conn (c : nat) (s : State) : option State :=
  match pc_of s c with
  | Registering u =>
      match register u c (users s) with
      | Some us => Some (set_pc c (Active u) (set_users us s))
      | None => Some (set_pc c (Closed Panicked) s)
      end
  | AtLock u m =>
      match msgMu s with
      | None => Some (set_pc c (AtAssignID u m) (set_msgMu (Some (TConn c)) s))
      | Some _ => None
      end
  | AtAssignID u m => Some (set_pc c (AtIncr u (setID (msgID s) m)) s)
  | AtIncr u m =>
      Some (set_pc c (AtStamp u m) (set_msgID (wrap64 (msgID s + 1)) s))
  | AtAppend u m =>
      Some (set_pc c (AtUnlock u m) (set_messages (messages s ++ [m]) s))
  | AtUnlock u m => Some (set_pc c (AtScan u m) (set_msgMu None s))
  | AtScan u m =>
      match findSession (Message.To m) (sessions s) 0 with
      | Some i =>
          match setLastMsg i (Message.Content m) (sessions s) with
          | Some ss => Some (set_pc c (AtLastTime u m i) (set_sessions ss s))
          | None => Some (set_pc c (Closing u Panicked) s)
          end
      | None => Some (set_pc c (AtBroadcast u m) s)
      end
  | AtLastTime u m i =>
      match setLastTime i (Message.Timestamp m) (sessions s) with
      | Some ss => Some (set_pc c (AtBroadcast u m) (set_sessions ss s))
      | None => Some (set_pc c (Closing u Panicked) s)
      end
  | AtBroadcast u m =>
      Some (set_pc c (AtEcho u m) (send (broadcast m (users s)) s))
  | AtEcho u m => Some (set_pc c (Active u) (send [(c, m)] s))
  | Closing u e =>
      Some (set_pc c (Closed e) (set_users (deregister u (users s)) s))
  | Handshake | Active _ | AtStamp _ _ | Closed _ => None
  end.

(** One statement of [messagesHandler] for request [r]. *)
Definition run_req (r : nat) (s : State) : option State :=
  match reqs s !! r with
  | Some (MAtLock sid) =>
      match msgMu s with
      | None => Some (set_req r (MAtRead sid) (set_msgMu (Some (TReq r)) s))
      | Some _ => None
      end
  | Some (MAtRead sid) =>
      Some (set_req r (MAtUnlock sid (collect sid (messages s))) s)
  | Some (MAtUnlock sid res) =>
      Some (set_req r (ReqDone (jsonMessages res)) (set_msgMu None s))
  | Some (ReqDone _) | None => None
  end.

Definition step (s : State) (e : Event) : option State :=
  match e with
  | RecvIdentity c r =>
      match pc_of s c with
      | Handshake =>
          match r with
          | Some username =>
              if decide (username = ""%string)
              then Some (set_pc c (Closed Returned) s)
              else Some (set_pc c (Registering username) s)
          | None => Some (set_pc c (Closed Returned) s)
          end
      | _ => None
      end
  | RecvFrame c r =>
      match pc_of s c with
      | Active u =>
          match r with
          | Some msg => Some (set_pc c (AtLock u msg) s)
          | None => Some (set_pc c (Closing u Returned) s)
          end
      | _ => None
      end
  | Run c => run_conn c s
  | Clock c now =>
      match pc_of s c with
      | AtStamp u m =>
          match stamp now m with
          | Some m' => Some (set_pc c (AtAppend u m') s)
          | None => Some (set_pc c (Closing u Panicked) s)
          end
      | _ => None
      end
  | HttpSessions r =>
      match reqs s !! r with
      | None => Some (set_req r (ReqDone (sessionsHandler (sessions s))) s)
      | Some _ => None
      end
  | HttpMessages r q =>
      match reqs s !! r with
      | None =>
          let sessionID := Get q "session_id" in
          if decide (sessionID = ""%string)
          then Some (set_req r (ReqDone badRequest) s)
          else Some (set_req r (MAtLock sessionID) s)
      | Some _ => None
      end
  | RunReq r => run_req r s
  end.

(** A schedule is a list of events; it runs as long as every event is
    enabled. *)
Fixpoint run (s : State) (tr : list Event) : option State :=
  match tr with
  | [] => Some s
  | e :: tr' =>
      match step s e with
      | Some s' => run s' tr'
      | None => None
      end
  end.

Definition reachable (s : State) : Prop :=
  exists (t0 : Time) (tr : list Event), run (init_state t0) tr = Some s.

(** The events in which connection [c], having received [msg], carries
    one turn of the loop body to its end; [found] tells whether the scan
    of the session list hits. *)
Definition turn (c : nat) (now : Time) (found : bool) : list Event :=
  [Run c; Run c; Run c; Clock c now; Run c; Run c; Run c]
  ++ (if found then [Run c] else [])
  ++ [Run c; Run c].

(** The sends of [wire] that went to handle [c]. *)
Definition received (c : nat) (w : list (nat * Message.t))
    : list Message.t :=
  snd <$> filter (fun p => fst p = c) w.

(** ** Predicates on states *)

(** The program counters inside the [msgMu] critical section. *)
Definition in_cs (pc : ConnPC) : Prop :=
  match pc with
  | AtAssignID _ _ | AtIncr _ _ | AtStamp _ _ | AtAppend _ _
  | AtUnlock _ _ => True
  | _ => False
  end.

Definition req_in_cs (pc : ReqPC) : Prop :=
  match pc with
  | MAtRead _ | MAtUnlock _ _ => True
  | _ => False
  end.

(** A goroutine that is unwinding from a panic, or has done so. *)
Definition dead (pc : ConnPC) : Prop :=
  match pc with
  | Closing _ Panicked | Closed Panicked => True
  | _ => False
  end.

(** The identity a connection is registered under, from the moment line
    88 has run until the deferred deregistration has run. *)
Definition identity (pc : ConnPC) : option string :=
  match pc with
  | Active u | AtLock u _ | AtAssignID u _ | AtIncr u _ | AtStamp u _
  | AtAppend u _ | AtUnlock u _ | AtScan u _ | AtLastTime u _ _
  | AtBroadcast u _ | AtEcho u _ | Closing u _ => Some u
  | Handshake | Registering _ | Closed _ => None
  end.

(** The [username] variable, once the handshake has set it. *)
Definition name_of (pc : ConnPC) : option string :=
  match pc with
  | Registering u => Some u
  | Handshake | Closed _ => None
  | _ => identity pc
  end.

(** The id the next append will use. *)
Definition next_id (s : State) : Z :=
  wrap64 (Z.of_nat (length (messages s)) + 1).

(** The i-th message of the log (from 0) carries id i+1. *)
Definition log_ok (s : State) : Prop :=
  forall (i : nat) (m : Message.t),
    messages s !! i = Some m -> Message.ID m = wrap64 (Z.of_nat i + 1).

(** The counter agrees with the log whenever [msgMu] is free; while a
    goroutine is inside the critical section the relation depends on how
    far it has come.  A lock held by any other goroutine is one that a
    panic left behind. *)
Definition counter_ok (s : State) : Prop :=
  match msgMu s with
  | None => msgID s = next_id s
  | Some (TConn c) =>
      match pc_of s c with
      | AtAssignID _ _ | AtUnlock _ _ => msgID s = next_id s
      | AtIncr _ m => msgID s = next_id s /\ Message.ID m = next_id s
      | AtStamp _ m | AtAppend _ m =>
          msgID s = wrap64 (next_id s + 1) /\ Message.ID m = next_id s
      | Closing _ Panicked | Closed Panicked => True
      | _ => False
      end
  | Some (TReq r) =>
      match reqs s !! r with
      | Some (MAtRead _) | Some (MAtUnlock _ _) => msgID s = next_id s
      | _ => False
      end
  end.

Record Inv (s : State) : Prop := mkInv {
  inv_log : log_ok s;
  inv_counter : counter_ok s;
  inv_excl : forall c, in_cs (pc_of s c) -> msgMu s = Some (TConn c);
  inv_excl_req : forall r pc,
    reqs s !! r = Some pc -> req_in_cs pc -> msgMu s = Some (TReq r);
  inv_dead : forall c, dead (pc_of s c) -> msgMu s = Some (TConn c);
  inv_users : forall k usr,
    users s !! k = Some usr ->
    User.Username usr = k /\ identity (pc_of s (User.WS usr)) = Some k;
  inv_names : forall c u, name_of (pc_of s c) = Some u -> u <> ""%string;
  inv_sessions : Session.ID <$> sessions s = ["public-chat"%string];
  inv_index : forall c u m i,
    pc_of s c = AtLastTime u m i -> (i < length (sessions s))%nat;
  inv_read : forall r sid res,
    reqs s !! r = Some (MAtUnlock sid res) -> res = collect sid (messages s)
}.

Arguments pc_of : simpl never.

(** ** Concrete runs *)

(** A frame as a client sends it: only [from], [to] and [content] are
    populated, the other fields have their zero values. *)
Definition frame (from to content : string) : Message.t :=
  Message.mk 0 from to content 0 false "".

(** Connection 1 shakes hands as alice, connection 2 as bob. *)
Definition two_clients : list Event :=
  [RecvIdentity 1 (Some "alice"%string); Run 1;
   RecvIdentity 2 (Some "bob"%string); Run 2].

(** Alice and bob send at the same time: bob's frame has arrived before
    alice takes [msgMu], and he takes the lock while she is still busy
    with the session summary of her own message. *)
Definition race_trace : list Event :=
  two_clients ++
  [RecvFrame 1 (Some (frame "alice" "public-chat" "hi"));
   RecvFrame 2 (Some (frame "bob" "public-chat" "yo"));
   Run 1; Run 1; Run 1; Clock 1 10; Run 1; Run 1;
   Run 2; Run 2; Run 1; Run 2; Clock 2 11; Run 1; Run 2; Run 2;
   Run 1; Run 1; Run 2; Run 2; Run 2; Run 2].

(** The state a schedule leads to from the initial state at time 0. *)
Definition after (tr : list Event) : State :=
  default (init_state 0) (run (init_state 0) tr).

(** Alice's connection has just received a frame in which the client
    filled in every field, also those the server assigns. *)
Definition forged : Message.t :=
  Message.mk 99 "alice" "public-chat" "hi" 77 true "zz".

Definition forged_trace : list Event :=
  two_clients ++ [RecvFrame 1 (Some forged)].


(** Two connections have both announced the identity alice and neither
    has been registered yet. *)
Definition twins_trace : list Event :=
  [RecvIdentity 1 (Some "alice"%string); RecvIdentity 2 (Some "alice"%string)].

(** The query string [?session_id=v]. *)
Definition query (v : string) : gmap string (list string) :=
  {[ "session_id"%string := [v] ]}.



(** Connection 1, registered as alice, sends a frame whose [from] names
    bob, and the server processes it completely. *)
Definition spoof_trace : list Event :=
  two_clients ++ [RecvFrame 1 (Some (frame "bob" "public-chat" "hi"))]
  ++ turn 1 5 true.

(** Alice's frame has been stamped, logged and summarised; line 129 is
    next. *)
Definition before_broadcast_trace : list Event :=
  two_clients ++ [RecvFrame 1 (Some (frame "alice" "public-chat" "hi"))]
  ++ take 8 (turn 1 5 true).



(** Alice appends first and bob second, but bob writes the summary
    before alice does; afterwards both are back in their receive loop. *)
Definition lost_update_trace : list Event :=
  two_clients ++
  [RecvFrame 1 (Some (frame "alice" "public-chat" "hi"));
   RecvFrame 2 (Some (frame "bob" "public-chat" "yo"));
   Run 1; Run 1; Run 1; Clock 1 10; Run 1; Run 1;
   Run 2; Run 2; Run 2; Clock 2 11; Run 2; Run 2;
   Run 2; Run 2; Run 2; Run 2;
   Run 1; Run 1; Run 1; Run 1].

(** Alice's connection sends a frame with an empty [from] and reaches
    line 115. *)
Definition panic_trace : list Event :=
  two_clients ++
  [RecvFrame 1 (Some (frame "" "public-chat" "hi"));
   Run 1; Run 1; Run 1; Clock 1 5].




(** ** Further predicates *)

(** A message as lines 113-115 leave it. *)
Definition stamped (m : Message.t) : Prop :=
  Message.IsRead m = false /\
  firstByte (Message.From m) = Some (Message.Avatar m).

(** The message a connection still works on after line 116 has put it
    into the log. *)
Definition appended_msg (pc : ConnPC) : option Message.t :=
  match pc with
  | AtUnlock _ m | AtScan _ m | AtLastTime _ m _ | AtBroadcast _ m
  | AtEcho _ m => Some m
  | _ => None
  end.

(** The fields of the public room that no statement assigns to. *)
Definition seeded (x : Session.t) : Prop :=
  Session.ID x = "public-chat"%string /\
  Session.Name x = Session.Name (publicChat 0) /\
  Session.Avatar x = Session.Avatar (publicChat 0) /\
  Session.IsGroup x = true /\
  Session.Unread x = 0.

Record Inv2 (s : State) : Prop := mkInv2 {
  inv_avatar : forall k usr,
    users s !! k = Some usr -> firstByte k = Some (User.Avatar usr);
  inv_stamped_log : forall m, m ∈ messages s -> stamped m;
  inv_at_append : forall c u m, pc_of s c = AtAppend u m -> stamped m;
  inv_carried : forall c m,
    appended_msg (pc_of s c) = Some m -> m ∈ messages s;
  inv_wire : forall h m, (h, m) ∈ wire s -> m ∈ messages s;
  inv_directory : exists x,
    sessions s = [x] /\ seeded x /\
    (Session.LastMsg x = Session.LastMsg (publicChat 0) \/
     exists m, m ∈ messages s /\ Message.To m = "public-chat"%string /\
               Session.LastMsg x = Message.Content m)
}.


(** ** main (lines 167-182) *)



(** ** Slices that may be nil

    [var res []Message] declares a nil slice, and [append] never returns
    nil once it has been given an element.  [None] is nil. *)
Definition appendSlice (res : option (list Message.t)) (msg : Message.t)
    : option (list Message.t) :=
  match res with
  | None => Some [msg]
  | Some l => Some (l ++ [msg])
  end.

(** Lines 150-155 once more, keeping track of whether [res] is nil. *)
Definition collectSlice (sessionID : string) (msgs : list Message.t)
    : option (list Message.t) :=
  fold_left
    (fun res msg =>
       if decide (Message.To msg = sessionID) then appendSlice res msg
       else res)
    msgs None.

(** ** UTF-8 of one code point below 0x100

    The inverse of [string_of_byte]: the code point a one-byte or
    two-byte UTF-8 sequence stands for. *)
Definition rune_of_utf8 (s : string) : option N :=
  match s with
  | String b EmptyString =>
      if (N_of_ascii b <? 128)%N then Some (N_of_ascii b) else None
  | String b1 (String b2 EmptyString) =>
      let n1 := N_of_ascii b1 in
      let n2 := N_of_ascii b2 in
      if ((N.land n1 224 =? 192) && (N.land n2 192 =? 128))%N
      then Some (N.lor (N.shiftl (N.land n1 31) 6) (N.land n2 63))
      else None
  | _ => None
  end.


(** The forged frame of [forged_trace] has been processed. *)
Definition forged_done_trace : list Event :=
  forged_trace ++ turn 1 5 true.

(** Alice's connection holds [msgMu] and is about to execute line 111. *)
Definition locked_trace : list Event :=
  two_clients ++
  [RecvFrame 1 (Some (frame "alice" "public-chat" "hi")); Run 1].

(** Alice's connection has received a frame with an empty [from] and is
    about to execute lines 113-115. *)
Definition pre_panic_trace : list Event :=
  two_clients ++
  [RecvFrame 1 (Some (frame "" "public-chat" "hi")); Run 1; Run 1; Run 1].

(** A request that can no longer produce a history. *)
Definition stuck (pc : ReqPC) : Prop :=
  match pc with
  | MAtLock _ => True
  | ReqDone resp => forall ms, body resp <> MessagesBody ms
  | _ => False
  end.

(** The requests that have arrived since [s0] can no longer produce a
    history in [s]. *)
Definition newer_requests_stuck (s0 s : State) : Prop :=
  forall r pc, reqs s0 !! r = None -> reqs s !! r = Some pc -> stuck pc.

(** After the panic of [panic_trace]: the dead handler finishes its
    deferred calls, bob sends a frame and two requests arrive. *)
Definition aftermath : list Event :=
  [Run 1; RecvFrame 2 (Some (frame "bob" "public-chat" "yo"));
   HttpMessages 0 (query "public-chat"); HttpSessions 1].

(** A connection that has not executed line 88 yet. *)
Definition unregistered (pc : ConnPC) : Prop :=
  match pc with
  | Handshake | Registering _ => True
  | _ => False
  end.

(** Nothing has been sent to a connection that is not registered yet. *)
Definition wire_ok (s : State) : Prop :=
  forall h m, (h, m) ∈ wire s -> ~ unregistered (pc_of s h).

(** * Properties *)

(** ** Arithmetic of the counter *)

Lemma wrap64_small (z : Z) : - 2 ^ 63 <= z <= max_int64 -> wrap64 z = z.
Proof.
  unfold wrap64, max_int64. intros Hz.
  rewrite Z.mod_small by lia. lia.
Qed.

Lemma wrap64_succ (z : Z) : wrap64 (wrap64 z + 1) = wrap64 (z + 1).
Proof.
  unfold wrap64.
  replace ((z + 2 ^ 63) mod 2 ^ 64 - 2 ^ 63 + 1 + 2 ^ 63)
    with ((z + 2 ^ 63) mod 2 ^ 64 + 1) by lia.
  rewrite Zplus_mod_idemp_l. f_equal. f_equal. lia.
Qed.

(** ** Reading the state after an update *)

Lemma pc_of_set_pc (c c' : nat) (pc : ConnPC) (s : State) :
  pc_of (set_pc c pc s) c' = if decide (c = c') then pc else pc_of s c'.
Proof.
  unfold pc_of, set_pc. simpl. rewrite lookup_insert.
  destruct (decide (c = c')); reflexivity.
Qed.

Lemma pc_of_set_pc_eq (c : nat) (pc : ConnPC) (s : State) :
  pc_of (set_pc c pc s) c = pc.
Proof. rewrite pc_of_set_pc. destruct (decide (c = c)); congruence. Qed.

Lemma pc_of_set_pc_ne (c c' : nat) (pc : ConnPC) (s : State) :
  c <> c' -> pc_of (set_pc c pc s) c' = pc_of s c'.
Proof. intros. rewrite pc_of_set_pc. destruct (decide (c = c')); congruence. Qed.

Lemma pc_of_set_users us s c : pc_of (set_users us s) c = pc_of s c.
Proof. reflexivity. Qed.

Lemma pc_of_set_messages ms s c : pc_of (set_messages ms s) c = pc_of s c.
Proof. reflexivity. Qed.

Lemma pc_of_set_sessions ss s c : pc_of (set_sessions ss s) c = pc_of s c.
Proof. reflexivity. Qed.

Lemma pc_of_set_msgID z s c : pc_of (set_msgID z s) c = pc_of s c.
Proof. reflexivity. Qed.

Lemma pc_of_set_msgMu h s c : pc_of (set_msgMu h s) c = pc_of s c.
Proof. reflexivity. Qed.

Lemma pc_of_set_req r pc s c : pc_of (set_req r pc s) c = pc_of s c.
Proof. reflexivity. Qed.

Lemma pc_of_send out s c : pc_of (send out s) c = pc_of s c.
Proof. reflexivity. Qed.

Create Rewrite HintDb state.

#[local] Hint Rewrite pc_of_set_pc pc_of_set_users pc_of_set_messages
  pc_of_set_sessions pc_of_set_msgID pc_of_set_msgMu pc_of_set_req
  pc_of_send : state.

Ltac step_cases H :=
  unfold step, run_conn, run_req in H;
  repeat first [case_decide | case_match]; simplify_eq.

(** Every step keeps the length of the session list. *)
Lemma setLastMsg_length i content ss ss' :
  setLastMsg i content ss = Some ss' -> length ss' = length ss.
Proof.
  unfold setLastMsg. intros H. simplify_option_eq. apply length_insert.
Qed.

Lemma setLastTime_length i t ss ss' :
  setLastTime i t ss = Some ss' -> length ss' = length ss.
Proof.
  unfold setLastTime. intros H. simplify_option_eq. apply length_insert.
Qed.

Lemma setLastMsg_ids i content ss ss' :
  setLastMsg i content ss = Some ss' -> Session.ID <$> ss' = Session.ID <$> ss.
Proof.
  unfold setLastMsg. intros H. simplify_option_eq.
  rewrite list_fmap_insert. simpl. apply list_insert_id.
  rewrite list_lookup_fmap. by rewrite Heqo.
Qed.

Lemma setLastTime_ids i t ss ss' :
  setLastTime i t ss = Some ss' -> Session.ID <$> ss' = Session.ID <$> ss.
Proof.
  unfold setLastTime. intros H. simplify_option_eq.
  rewrite list_fmap_insert. simpl. apply list_insert_id.
  rewrite list_lookup_fmap. by rewrite Heqo.
Qed.

Lemma findSession_lt to ss i j :
  findSession to ss i = Some j -> (i <= j < i + length ss)%nat.
Proof.
  revert i. induction ss as [|s ss IH]; intros i; simpl; [done|].
  case_decide.
  - intros [= ->]. lia.
  - intros H'. apply IH in H'. lia.
Qed.

Lemma step_log_ok s e s' : Inv s -> step s e = Some s' -> log_ok s'.
Proof.
  intros HI H. pose proof (inv_log _ HI) as Hlog.
  destruct e; step_cases H; try exact Hlog.
  (* line 116 *)
  intros i m' Hi. simpl in Hi.
  apply lookup_app_Some in Hi as [Hi | [Hlen Hi]]; [by apply Hlog|].
  apply list_lookup_singleton_Some in Hi as [Hi ->].
  assert (Hmu : msgMu s = Some (TConn c)).
  { apply (inv_excl _ HI). by rewrite H0. }
  pose proof (inv_counter _ HI) as Hc. unfold counter_ok in Hc.
  rewrite Hmu, H0 in Hc. destruct Hc as [_ ->]. unfold next_id.
  f_equal. lia.
Qed.

Lemma firstByte_None s : firstByte s = None -> s = ""%string.
Proof. destruct s; [done | discriminate]. Qed.

Lemma firstByte_is_Some s : s <> ""%string -> is_Some (firstByte s).
Proof. destruct s; [done | by eexists]. Qed.

Lemma step_sessions_ids s e s' :
  step s e = Some s' -> Session.ID <$> sessions s' = Session.ID <$> sessions s.
Proof.
  intros H. destruct e; step_cases H; simpl; try reflexivity;
    eauto using setLastMsg_ids, setLastTime_ids.
Qed.

Lemma step_sessions_length s e s' :
  step s e = Some s' -> length (sessions s') = length (sessions s).
Proof.
  intros H. apply step_sessions_ids in H.
  apply (f_equal length) in H. by rewrite !length_fmap in H.
Qed.

(** What a step does to the program counters: one connection moves. *)
Ltac pcs :=
  autorewrite with state in *; simpl in *; repeat case_decide;
  simplify_eq; simpl in *; simplify_eq.

Lemma step_inv_index s e s' :
  Inv s -> step s e = Some s' ->
  forall c u m i, pc_of s' c = AtLastTime u m i -> (i < length (sessions s'))%nat.
Proof.
  intros HI H c0 u0 m0 i0. rewrite (step_sessions_length _ _ _ H).
  pose proof (inv_index _ HI c0 u0 m0 i0) as Hix.
  destruct e; step_cases H; intros Hpc; pcs; try (by apply Hix); try done.
  match goal with Hf : findSession _ _ _ = Some _ |- _ =>
    apply findSession_lt in Hf; lia end.
Qed.

Lemma step_inv_names s e s' :
  Inv s -> step s e = Some s' ->
  forall c u, name_of (pc_of s' c) = Some u -> u <> ""%string.
Proof.
  intros HI H c0 u0. pose proof (inv_names _ HI) as Hn.
  destruct e; step_cases H; intros Hpc; pcs;
    try (by apply (Hn c0)); try done;
    try (match goal with Hq : pc_of s ?c = _ |- _ =>
      apply (Hn c); rewrite Hq; done end).
Qed.

(** Who holds [msgMu], read off the program counters in the context. *)
Ltac holder HI :=
  repeat match goal with
  | Hq : pc_of ?s ?c = _ |- _ =>
      lazymatch goal with
      | _ : msgMu s = Some (TConn c) |- _ => fail
      | _ => assert (msgMu s = Some (TConn c)) by
               first [ apply (inv_excl _ HI); rewrite Hq; exact I
                     | apply (inv_dead _ HI); rewrite Hq; exact I ]
      end
  | Hq : reqs ?s !! ?r = Some _ |- _ =>
      lazymatch goal with
      | _ : msgMu s = Some (TReq r) |- _ => fail
      | _ => assert (msgMu s = Some (TReq r)) by
               (apply (inv_excl_req _ HI _ _ Hq); exact I)
      end
  | Hq : in_cs (pc_of ?s ?c) |- _ =>
      lazymatch goal with
      | _ : msgMu s = Some (TConn c) |- _ => fail
      | _ => assert (msgMu s = Some (TConn c)) by (apply (inv_excl _ HI), Hq)
      end
  | Hq : dead (pc_of ?s ?c) |- _ =>
      lazymatch goal with
      | _ : msgMu s = Some (TConn c) |- _ => fail
      | _ => assert (msgMu s = Some (TConn c)) by (apply (inv_dead _ HI), Hq)
      end
  end.

Lemma step_inv_excl s e s' :
  Inv s -> step s e = Some s' ->
  forall c, in_cs (pc_of s' c) -> msgMu s' = Some (TConn c).
Proof.
  intros HI H c0.
  destruct e; step_cases H; intros Hcs; pcs; try done; holder HI;
    congruence.
Qed.

Lemma step_inv_excl_req s e s' :
  Inv s -> step s e = Some s' ->
  forall r pc, reqs s' !! r = Some pc -> req_in_cs pc ->
               msgMu s' = Some (TReq r).
Proof.
  intros HI H r0 pc0.
  destruct e; step_cases H; intros Hr Hcs; simpl in *;
    rewrite ?lookup_insert in Hr; repeat case_decide; simplify_eq;
    try done; try (pose proof (inv_excl_req _ HI _ _ Hr Hcs));
    holder HI; congruence.
Qed.

Lemma setLastMsg_is_Some to ss i content :
  findSession to ss 0 = Some i -> is_Some (setLastMsg i content ss).
Proof.
  intros Hf. apply findSession_lt in Hf. unfold setLastMsg.
  destruct (lookup_lt_is_Some_2 ss i) as [x ->]; [lia|]. by eexists.
Qed.

Lemma setLastTime_is_Some ss i t :
  (i < length ss)%nat -> is_Some (setLastTime i t ss).
Proof.
  intros Hi. unfold setLastTime.
  destruct (lookup_lt_is_Some_2 ss i) as [x ->]; [lia|]. by eexists.
Qed.

Lemma register_is_Some u c us : u <> ""%string -> is_Some (register u c us).
Proof.
  intros Hu. unfold register.
  destruct (firstByte_is_Some u Hu) as [a ->]. by eexists.
Qed.

(** The panics of lines 90, 122 and 123 cannot happen: the handshake
    rejects the empty identity, and the session list never shrinks. *)
Ltac no_panic HI :=
  match goal with
  | Hq : pc_of ?s ?c = Registering ?u, Hr : register ?u _ _ = None |- _ =>
      exfalso; assert (Hu : u <> ""%string)
        by (apply (inv_names _ HI c); rewrite Hq; reflexivity);
      destruct (register_is_Some u c (users s) Hu) as [? Hs]; congruence
  | Hf : findSession _ ?ss 0 = Some ?i, Hr : setLastMsg ?i ?x ?ss = None |- _ =>
      exfalso; destruct (setLastMsg_is_Some _ _ _ x Hf) as [? Hs]; congruence
  | Hq : pc_of ?s ?c = AtLastTime _ _ ?i, Hr : setLastTime ?i ?t _ = None |- _ =>
      exfalso; destruct (setLastTime_is_Some (sessions s) i t) as [? Hs];
        [ by apply (inv_index _ HI _ _ _ _ Hq) | congruence ]
  end.

Lemma step_inv_dead s e s' :
  Inv s -> step s e = Some s' ->
  forall c, dead (pc_of s' c) -> msgMu s' = Some (TConn c).
Proof.
  intros HI H c0.
  destruct e; step_cases H; try no_panic HI; intros Hd; pcs; try done;
    try (match goal with Hx : match ?x with Returned => _ | _ => _ end |- _ =>
           destruct x; [done|] end);
    holder HI; congruence.
Qed.

Lemma step_inv_users s e s' :
  Inv s -> step s e = Some s' ->
  forall k usr, users s' !! k = Some usr ->
    User.Username usr = k /\ identity (pc_of s' (User.WS usr)) = Some k.
Proof.
  intros HI H k usr. pose proof (inv_users _ HI) as Hu.
  destruct e; step_cases H; try no_panic HI; intros Hk; pcs;
    try (destruct (Hu _ _ Hk) as [? Hid];
         repeat match goal with
                | Hq : pc_of s _ = _ |- _ => rewrite Hq in Hid
                end;
         simpl in Hid; simplify_eq; done).
  - (* line 88, seen from the registering connection *)
    unfold register in *. simplify_option_eq.
    rewrite lookup_insert in Hk. case_decide; simplify_eq;
      [by destruct usr; simplify_eq|].
    destruct (Hu _ _ Hk) as [_ Hid]. rewrite H0 in Hid. done.
  - (* line 88, seen from another connection *)
    unfold register in *. simplify_option_eq.
    rewrite lookup_insert in Hk. case_decide; simplify_eq;
      try (by destruct usr; simplify_eq).
    by apply Hu.
  - (* line 98, seen from the closing connection *)
    unfold deregister in Hk. rewrite lookup_delete in Hk.
    case_decide; simplify_eq.
    destruct (Hu _ _ Hk) as [_ Hid]. rewrite H0 in Hid. simpl in Hid.
    congruence.
  - (* line 98, seen from another connection *)
    unfold deregister in Hk. rewrite lookup_delete in Hk.
    case_decide; simplify_eq. by apply Hu.
Qed.

Lemma stamp_Some now m m' :
  stamp now m = Some m' ->
  Message.From m <> ""%string /\
  m' = Message.mk (Message.ID m) (Message.From m) (Message.To m)
         (Message.Content m) now false
         (default ""%string (firstByte (Message.From m))).
Proof.
  unfold stamp. intros H.
  destruct (firstByte (Message.From m)) as [a|] eqn:Ha; simplify_eq/=.
  split; [|done]. intros Hempty. by rewrite Hempty in Ha.
Qed.

Lemma step_counter_ok s e s' : Inv s -> step s e = Some s' -> counter_ok s'.
Proof.
  intros HI H. pose proof (inv_counter _ HI) as Hc.
  destruct e; step_cases H; try no_panic HI; holder HI;
    unfold counter_ok, next_id in *; simpl;
    destruct (msgMu s) as [[?|?]|] eqn:Hmu; simplify_eq;
    autorewrite with state; rewrite ?lookup_insert;
    repeat case_decide; simplify_eq;
    repeat match goal with
           | Hq : pc_of s _ = _ |- _ => rewrite Hq in *
           | Hq : reqs s !! _ = _ |- _ => rewrite Hq in *
           end;
    try done; repeat case_match; simplify_eq; try done.
  - (* line 112 *)
    destruct Hc as [-> ?]. done.
  - (* line 116 *)
    destruct Hc as [-> _]. rewrite wrap64_succ, length_app. simpl.
    f_equal. lia.
  - (* lines 113-115 *)
    match goal with Hs : stamp _ _ = Some _ |- _ =>
      apply stamp_Some in Hs as [_ ->] end. done.
Qed.

Lemma step_inv_read s e s' :
  Inv s -> step s e = Some s' ->
  forall r sid res, reqs s' !! r = Some (MAtUnlock sid res) ->
                    res = collect sid (messages s').
Proof.
  intros HI H r0 sid0 res0. pose proof (inv_read _ HI r0 sid0 res0) as Hr.
  destruct e; step_cases H; intros Hq; simpl in *;
    rewrite ?lookup_insert in Hq; repeat case_decide; simplify_eq;
    try done; try (by apply Hr).
  (* line 116: nobody reads while the appender holds the lock *)
  holder HI. congruence.
Qed.

Lemma step_Inv s e s' : Inv s -> step s e = Some s' -> Inv s'.
Proof.
  intros HI H. split.
  - by eapply step_log_ok.
  - by eapply step_counter_ok.
  - by eapply step_inv_excl.
  - by eapply step_inv_excl_req.
  - by eapply step_inv_dead.
  - by eapply step_inv_users.
  - by eapply step_inv_names.
  - rewrite (step_sessions_ids _ _ _ H). by apply inv_sessions.
  - by eapply step_inv_index.
  - by eapply step_inv_read.
Qed.

Lemma init_Inv t0 : Inv (init_state t0).
Proof.
  split; try done.
  all: intros c; unfold pc_of; simpl; rewrite lookup_empty; simpl; done.
Qed.

Lemma run_Inv tr : forall s s', Inv s -> run s tr = Some s' -> Inv s'.
Proof.
  induction tr as [|e tr IH]; intros s s' HI H; simpl in H.
  - by simplify_eq.
  - destruct (step s e) as [s1|] eqn:Hs; [|done].
    eapply IH; [|exact H]. by eapply step_Inv.
Qed.

Lemma reachable_Inv s : reachable s -> Inv s.
Proof.
  intros (t0 & tr & H). eapply run_Inv; [apply init_Inv | exact H].
Qed.


(** ** The log only grows *)

Lemma step_messages_prefix s e s' :
  step s e = Some s' -> messages s `prefix_of` messages s'.
Proof.
  intros H. destruct e; step_cases H; simpl; try done.
  by apply prefix_app_r.
Qed.

Lemma run_messages_prefix tr : forall s s',
  run s tr = Some s' -> messages s `prefix_of` messages s'.
Proof.
  induction tr as [|e tr IH]; intros s s' H; simpl in H.
  - by simplify_eq.
  - destruct (step s e) as [s1|] eqn:Hs; [|done].
    etrans; [by eapply step_messages_prefix | by apply IH].
Qed.

(** ** Message ids *)

(** C2.  In every reachable state, whatever the interleaving of the
    connections that led to it, the ids of the log are 1, 2, 3, ... in
    append order: the i-th entry carries id i, so ids are strictly
    increasing and pairwise distinct.  The length of the log is a Go
    [int], hence at most [max_int64]; this is the only assumption. *)
Theorem ids_sequential (s : State) :
  reachable s ->
  Z.of_nat (length (messages s)) <= max_int64 ->
  Message.ID <$> messages s = seqZ 1 (Z.of_nat (length (messages s))) /\
  (forall i j mi mj,
     messages s !! i = Some mi -> messages s !! j = Some mj ->
     (i < j)%nat -> Message.ID mi < Message.ID mj) /\
  NoDup (Message.ID <$> messages s).
Proof.
  intros Hr Hlen. apply reachable_Inv in Hr.
  pose proof (inv_log _ Hr) as Hlog.
  assert (Hid : forall i m, messages s !! i = Some m ->
                            Message.ID m = 1 + Z.of_nat i).
  { intros i m Hi. rewrite (Hlog _ _ Hi).
    apply lookup_lt_Some in Hi.
    rewrite wrap64_small; unfold max_int64 in *; lia. }
  assert (Heq : Message.ID <$> messages s
                = seqZ 1 (Z.of_nat (length (messages s)))).
  { apply list_eq. intros i. rewrite list_lookup_fmap.
    destruct (messages s !! i) as [m|] eqn:Hi; simpl.
    - rewrite (Hid _ _ Hi). symmetry. apply lookup_seqZ_lt.
      apply lookup_lt_Some in Hi. lia.
    - symmetry. apply lookup_seqZ_ge. apply lookup_ge_None in Hi. lia. }
  split; [exact Heq|]. split.
  - intros i j mi mj Hi Hj Hij.
    rewrite (Hid _ _ Hi), (Hid _ _ Hj). lia.
  - rewrite Heq. apply NoDup_seqZ.
Qed.

Lemma ids_sequential_witness :
  reachable (after race_trace) /\
  Z.of_nat (length (messages (after race_trace))) <= max_int64 /\
  Message.ID <$> messages (after race_trace) = [1; 2] /\
  Message.From <$> messages (after race_trace) = ["alice"; "bob"]%string.
Proof.
  assert (Hr : reachable (after race_trace)).
  { exists 0, race_trace. vm_compute. reflexivity. }
  assert (Hl : Z.of_nat (length (messages (after race_trace))) <= max_int64).
  { vm_compute. discriminate. }
  split; [exact Hr|]. split; [exact Hl|]. split.
  - destruct (ids_sequential _ Hr Hl) as [-> _]. vm_compute. reflexivity.
  - vm_compute. reflexivity.
Defined.

(** ** One turn of the receive loop, run without interference *)

Lemma run_cons s e tr :
  run s (e :: tr) = match step s e with Some s' => run s' tr | None => None end.
Proof. reflexivity. Qed.

Lemma run_app tr1 : forall s tr2,
  run s (tr1 ++ tr2) = match run s tr1 with Some s' => run s' tr2 | None => None end.
Proof.
  induction tr1 as [|e tr1 IH]; intros s tr2; simpl; [done|].
  destruct (step s e); [apply IH | done].
Qed.

(** Executes the first event of the schedule in the goal. *)
Ltac tidy :=
  cbn [users messages sessions msgID msgMu conns reqs wire
       set_users set_messages set_sessions set_msgID set_msgMu set_req send
       set_pc mbind option_bind].

Ltac exec :=
  tidy; rewrite run_cons; unfold step at 1;
  try unfold run_conn at 1; try unfold run_req at 1;
  rewrite ?pc_of_set_pc_eq; autorewrite with state; tidy.

Lemma turn_spec s c u m now :
  pc_of s c = AtLock u m -> msgMu s = None ->
  Message.From m <> ""%string ->
  exists a found ss' s',
    firstByte (Message.From m) = Some a /\
    updateSummary (Message.To m) (Message.Content m) now (sessions s)
      = Some (found, ss') /\
    run s (turn c now found) = Some s' /\
    let m' := Message.mk (msgID s) (Message.From m) (Message.To m)
                (Message.Content m) now false a in
    users s' = users s /\
    messages s' = messages s ++ [m'] /\
    sessions s' = ss' /\
    msgID s' = wrap64 (msgID s + 1) /\
    msgMu s' = None /\
    reqs s' = reqs s /\
    wire s' = wire s ++ broadcast m' (users s) ++ [(c, m')] /\
    pc_of s' c = Active u /\
    (forall c', c' <> c -> pc_of s' c' = pc_of s c').
Proof.
  intros Hpc Hmu Hne.
  destruct (firstByte_is_Some _ Hne) as [a Ha]. exists a.
  unfold updateSummary, turn.
  destruct (findSession (Message.To m) (sessions s) 0) as [i|] eqn:Hf.
  - destruct (setLastMsg_is_Some _ _ _ (Message.Content m) Hf) as [ss1 H1].
    destruct (setLastTime_is_Some ss1 i now) as [ss2 H2].
    { rewrite (setLastMsg_length _ _ _ _ H1).
      apply findSession_lt in Hf. lia. }
    exists true, ss2. eexists. split; [done|]. split.
    { rewrite H1. simpl. rewrite H2. done. }
    split.
    { cbn [app]. exec. rewrite Hpc, Hmu. exec. exec. exec.
      unfold stamp. cbn [setID Message.From]. rewrite Ha.
      exec. exec. exec. cbn [setID Message.To Message.Content].
      rewrite Hf, H1. exec. cbn [Message.Timestamp]. rewrite H2.
      exec. exec. reflexivity. }
    tidy. rewrite pc_of_set_pc_eq, <- app_assoc.
    repeat split; try done.
    intros c' Hc'. autorewrite with state.
    rewrite !decide_False by done. done.
  - exists false, (sessions s). eexists. split; [done|]. split; [done|].
    split.
    { cbn [app]. exec. rewrite Hpc, Hmu. exec. exec. exec.
      unfold stamp. cbn [setID Message.From]. rewrite Ha.
      exec. exec. exec. cbn [setID Message.To]. rewrite Hf.
      exec. exec. reflexivity. }
    tidy. rewrite pc_of_set_pc_eq, <- app_assoc.
    repeat split; try done.
    intros c' Hc'. autorewrite with state.
    rewrite !decide_False by done. done.
Qed.

(** ** Stamping (lines 109-117) *)

Lemma fanout_snd msg entries :
  Forall (fun p => p.2 = msg) (fanout msg entries).
Proof.
  induction entries as [|[k usr] rest IH]; simpl; [constructor|].
  case_decide; [done | by constructor].
Qed.



(** ** The session summary (lines 119-126) *)






(** ** The registry (lines 86-100) *)

Lemma reachable_run s tr s' : reachable s -> run s tr = Some s' -> reachable s'.
Proof.
  intros (t0 & tr0 & H0) H. exists t0, (tr0 ++ tr).
  by rewrite run_app, H0.
Qed.

Lemma filter_none {A} (P : A -> Prop) `{!forall x, Decision (P x)}
    (l : list A) :
  Forall (fun x => ~ P x) l -> filter P l = [].
Proof.
  induction 1 as [|x l Hx _ IH]; [done|].
  by rewrite filter_cons_False.
Qed.

(** A registry holds exactly one entry under a key it knows. *)
Lemma entries_of_key (us : gmap string User.t) (k : string) (x : User.t) :
  us !! k = Some x ->
  filter (fun p => p.1 = k) (map_to_list us) ≡ₚ [(k, x)].
Proof.
  intros Hk.
  rewrite <- (insert_delete_id us k x Hk) at 1.
  rewrite map_to_list_insert by apply lookup_delete_eq.
  rewrite filter_cons_True by done.
  rewrite (filter_none _ (map_to_list (delete k us))); [done|].
  apply Forall_forall. intros [k' y] Hin Heq.
  apply elem_of_map_to_list in Hin. simpl in Heq. subst k'.
  by rewrite lookup_delete_eq in Hin.
Qed.

(** Reads a program counter off a state built by updates. *)
Ltac pc_simpl :=
  repeat first
    [ rewrite pc_of_set_pc_eq
    | rewrite pc_of_set_pc_ne by congruence
    | rewrite pc_of_set_users | rewrite pc_of_set_messages
    | rewrite pc_of_set_sessions | rewrite pc_of_set_msgID
    | rewrite pc_of_set_msgMu | rewrite pc_of_set_req | rewrite pc_of_send ].

(** Two connections register under the same identity, one after the
    other. *)
Lemma two_registrations (s : State) (c1 c2 : nat)
    (U : string) :
  reachable s -> c1 <> c2 ->
  pc_of s c1 = Registering U -> pc_of s c2 = Registering U ->
  exists a s1 s2,
    firstByte U = Some a /\
    step s (Run c1) = Some s1 /\
    users s1 !! U = Some (User.mk U a c1) /\
    step s1 (Run c2) = Some s2 /\
    users s2 !! U = Some (User.mk U a c2) /\
    filter (fun p => p.1 = U) (map_to_list (users s2))
      = [(U, User.mk U a c2)] /\
    users s2 = <[U := User.mk U a c2]> (users s) /\
    pc_of s2 c1 = Active U /\ pc_of s2 c2 = Active U /\
    (forall k1 k2 u1 u2,
       users s2 !! k1 = Some u1 -> users s2 !! k2 = Some u2 ->
       User.Username u1 = User.Username u2 -> k1 = k2 /\ u1 = u2).
Proof.
  intros Hr Hne H1 H2.
  assert (HU : U <> ""%string).
  { apply (inv_names _ (reachable_Inv _ Hr) c1). by rewrite H1. }
  destruct (firstByte_is_Some U HU) as [a Ha]. exists a.
  assert (Hs1 : step s (Run c1)
                = Some (set_pc c1 (Active U)
                          (set_users (<[U := User.mk U a c1]> (users s)) s))).
  { unfold step, run_conn, register. rewrite H1, Ha. done. }
  eexists _, _. split; [done|]. split; [exact Hs1|].
  split; [apply lookup_insert_eq|].
  assert (Hs2 : step (set_pc c1 (Active U)
                        (set_users (<[U := User.mk U a c1]> (users s)) s))
                  (Run c2)
                = Some (set_pc c2 (Active U)
                          (set_users (<[U := User.mk U a c2]> (users s))
                             (set_pc c1 (Active U)
                                (set_users (<[U := User.mk U a c1]> (users s))
                                   s))))).
  { unfold step, run_conn, register. autorewrite with state.
    rewrite decide_False by done. rewrite H2, Ha. simpl.
    by rewrite insert_insert_eq. }
  split; [exact Hs2|]. simpl.
  split; [apply lookup_insert_eq|]. split.
  { pose proof (entries_of_key (<[U := User.mk U a c2]> (users s)) U
                  (User.mk U a c2) (lookup_insert_eq _ _ _)) as Hp.
    by apply Permutation_singleton_r in Hp. }
  split; [done|]. split; [by pc_simpl|]. split; [by pc_simpl|].
  intros k1 k2 u1 u2 Hk1 Hk2 Hu.
  assert (Hr2 : reachable (set_pc c2 (Active U)
                  (set_users (<[U := User.mk U a c2]> (users s))
                     (set_pc c1 (Active U)
                        (set_users (<[U := User.mk U a c1]> (users s)) s))))).
  { apply (reachable_run s [Run c1; Run c2]); [done|].
    rewrite run_cons, Hs1, run_cons, Hs2. done. }
  apply reachable_Inv in Hr2.
  destruct (inv_users _ Hr2 _ _ Hk1) as [E1 _].
  destruct (inv_users _ Hr2 _ _ Hk2) as [E2 _].
  simpl in *. assert (k1 = k2) by congruence. subst k2.
  split; [done | congruence].
Qed.


(** C6.  When two connections shake hands with the same identity [U],
    both registrations succeed (there is no collision error), and
    afterwards the registry holds exactly one entry for [U]: that of the
    second connection, as if the first had never registered.  In the
    resulting state, as in every reachable state, no two entries carry
    the same identity. *)
Theorem second_handshake_replaces_first (s : State) (c1 c2 : nat)
    (U : string) :
  reachable s -> c1 <> c2 ->
  pc_of s c1 = Registering U -> pc_of s c2 = Registering U ->
  exists a s1 s2,
    firstByte U = Some a /\
    step s (Run c1) = Some s1 /\
    users s1 !! U = Some (User.mk U a c1) /\
    step s1 (Run c2) = Some s2 /\
    users s2 !! U = Some (User.mk U a c2) /\
    filter (fun p => p.1 = U) (map_to_list (users s2))
      = [(U, User.mk U a c2)] /\
    users s2 = <[U := User.mk U a c2]> (users s) /\
    pc_of s2 c1 = Active U /\ pc_of s2 c2 = Active U /\
    (forall k1 k2 u1 u2,
       users s2 !! k1 = Some u1 -> users s2 !! k2 = Some u2 ->
       User.Username u1 = User.Username u2 -> k1 = k2 /\ u1 = u2).
Proof. apply two_registrations. Qed.

Lemma second_handshake_replaces_first_witness :
  reachable (after twins_trace) /\
  pc_of (after twins_trace) 1 = Registering "alice" /\
  pc_of (after twins_trace) 2 = Registering "alice" /\
  exists s2,
    run (after twins_trace) [Run 1; Run 2] = Some s2 /\
    map_to_list (users s2) = [("alice"%string, User.mk "alice" "a" 2)].
Proof.
  assert (Hr : reachable (after twins_trace)).
  { exists 0, twins_trace. vm_compute. reflexivity. }
  assert (H1 : pc_of (after twins_trace) 1 = Registering "alice").
  { vm_compute. reflexivity. }
  assert (H2 : pc_of (after twins_trace) 2 = Registering "alice").
  { vm_compute. reflexivity. }
  split; [exact Hr|]. split; [exact H1|]. split; [exact H2|].
  assert (Hne : 1%nat <> 2%nat) by lia.
  destruct (second_handshake_replaces_first _ 1%nat 2%nat "alice" Hr Hne H1 H2)
    as (a & s1 & s2 & Ha & Hs1 & _ & Hs2 & _ & _ & Hus & _).
  exists s2. split.
  - rewrite run_cons, Hs1, run_cons, Hs2. reflexivity.
  - rewrite Hus. vm_compute in Ha. injection Ha as <-.
    vm_compute. reflexivity.
Defined.

(** C10.  The deferred deregistration deletes whatever entry is keyed by
    the identity of the closing connection.  So when two connections
    have registered as [U] one after the other and the first one closes,
    no entry for [U] is left, although the second connection is still
    in its receive loop. *)
Theorem close_of_replaced_connection_evicts (s : State) (c1 c2 : nat)
    (U : string) :
  reachable s -> c1 <> c2 ->
  pc_of s c1 = Registering U -> pc_of s c2 = Registering U ->
  (forall s0 c e, pc_of s0 c = Closing U e ->
     exists s0', step s0 (Run c) = Some s0' /\ users s0' !! U = None /\
                 pc_of s0' c = Closed e) /\
  exists s',
    run s [Run c1; Run c2; RecvFrame c1 None; Run c1] = Some s' /\
    users s' !! U = None /\
    users s' = delete U (users s) /\
    pc_of s' c1 = Closed Returned /\
    pc_of s' c2 = Active U.
Proof.
  intros Hr Hne H1 H2. split.
  { intros s0 c e Hc. eexists. split.
    - unfold step, run_conn. rewrite Hc. done.
    - simpl. unfold deregister. rewrite lookup_delete_eq.
      by rewrite pc_of_set_pc_eq. }
  destruct (two_registrations s c1 c2 U Hr Hne H1 H2)
    as (a & s1 & s2 & Ha & Hs1 & _ & Hs2 & _ & _ & Hus & Hp1 & Hp2 & _).
  eexists. split.
  { rewrite run_cons, Hs1, run_cons, Hs2.
    rewrite run_cons. unfold step at 1. rewrite Hp1.
    exec. reflexivity. }
  tidy. unfold deregister. rewrite Hus.
  split; [apply lookup_delete_eq|]. split; [apply delete_insert_eq|].
  split; [by pc_simpl|]. pc_simpl. exact Hp2.
Qed.

Lemma close_of_replaced_connection_evicts_witness :
  reachable (after twins_trace) /\
  pc_of (after twins_trace) 1 = Registering "alice" /\
  pc_of (after twins_trace) 2 = Registering "alice" /\
  exists s',
    run (after twins_trace) [Run 1; Run 2; RecvFrame 1 None; Run 1]
      = Some s' /\
    users s' !! "alice"%string = None /\
    pc_of s' 2 = Active "alice".
Proof.
  assert (Hr : reachable (after twins_trace)).
  { exists 0, twins_trace. vm_compute. reflexivity. }
  assert (H1 : pc_of (after twins_trace) 1 = Registering "alice").
  { vm_compute. reflexivity. }
  assert (H2 : pc_of (after twins_trace) 2 = Registering "alice").
  { vm_compute. reflexivity. }
  split; [exact Hr|]. split; [exact H1|]. split; [exact H2|].
  assert (Hne : 1%nat <> 2%nat) by lia.
  destruct (close_of_replaced_connection_evicts _ 1%nat 2%nat "alice" Hr Hne
              H1 H2)
    as (_ & s' & Hrun & Hus & _ & _ & Hp2).
  exists s'. split; [exact Hrun|]. split; [exact Hus | exact Hp2].
Defined.

(** ** The history endpoint (lines 141-160) *)

Lemma collect_from sessionID msgs : forall acc,
  fold_left
    (fun res msg =>
       if decide (Message.To msg = sessionID) then res ++ [msg] else res)
    msgs acc
  = acc ++ history_spec sessionID msgs.
Proof.
  unfold history_spec.
  induction msgs as [|m msgs IH]; intros acc; simpl.
  - by rewrite app_nil_r.
  - rewrite IH. rewrite filter_cons. case_decide; [|done].
    by rewrite <- app_assoc.
Qed.

(** The loop of [messagesHandler] computes the history of the
    specification. *)
Lemma collect_history sessionID msgs :
  collect sessionID msgs = history_spec sessionID msgs.
Proof. unfold collect. by rewrite collect_from. Qed.

(** C8.  A request to [/api/messages] whose query has no [session_id],
    or an empty one, is answered with status 400 and no body; nothing of
    the log is written, and the handler answers at once even while
    [msgMu] is held. *)
Theorem missing_session_id_is_bad_request (q : gmap string (list string)) :
  (q !! "session_id"%string = None \/
   exists vs, q !! "session_id"%string = Some (""%string :: vs)) ->
  (forall msgs,
     messagesHandler q msgs = badRequest /\
     status (messagesHandler q msgs) = 400 /\
     body (messagesHandler q msgs) = NoBody) /\
  (forall s r, reqs s !! r = None ->
     step s (HttpMessages r q) = Some (set_req r (ReqDone badRequest) s)).
Proof.
  intros Hq.
  assert (Hg : Get q "session_id" = ""%string).
  { unfold Get. destruct Hq as [-> | [vs ->]]; done. }
  split.
  - intros msgs. unfold messagesHandler. rewrite Hg. done.
  - intros s r Hr. unfold step. rewrite Hr, Hg. done.
Qed.

Lemma missing_session_id_is_bad_request_witness :
  (∅ : gmap string (list string)) !! "session_id"%string = None /\
  status (messagesHandler ∅ [frame "alice" "public-chat" "hi"]) = 400 /\
  body (messagesHandler ∅ [frame "alice" "public-chat" "hi"]) = NoBody.
Proof.
  assert (H : (∅ : gmap string (list string)) !! "session_id"%string = None)
    by reflexivity.
  split; [exact H|].
  destruct (missing_session_id_is_bad_request ∅ (or_introl H)) as [Hm _].
  destruct (Hm [frame "alice" "public-chat" "hi"]) as (_ & Hs & Hb).
  split; [exact Hs | exact Hb].
Defined.




(** ** Broadcast and echo (lines 65-74 and 128-131) *)

Lemma fanout_by_key msg entries :
  Forall (fun p : string * User.t => User.Username p.2 = p.1) entries ->
  fanout msg entries
  = (fun p : string * User.t => (User.WS p.2, msg))
      <$> filter (fun p => p.1 <> Message.From msg) entries.
Proof.
  induction 1 as [|[k usr] rest Hk _ IH]; [done|].
  simpl in *. subst k. rewrite filter_cons. simpl.
  destruct (decide (User.Username usr = Message.From msg)) as [He|He].
  - rewrite decide_False by (intros Hn; by apply Hn). exact IH.
  - rewrite decide_True by done. simpl. by rewrite IH.
Qed.

(** C3 as stated fails when the [from] of the frame is not the identity
    of the connection it arrived on: connection 1 is alice and sends a
    message in bob's name.  Bob's connection receives nothing at all,
    and connection 1 receives the message twice, once through the
    fan-out and once as the echo. *)
Lemma spoofed_sender_gets_no_echo :
  map_to_list (users (after spoof_trace))
    = [("alice"%string, User.mk "alice" "a" 1);
       ("bob"%string, User.mk "bob" "b" 2)] /\
  messages (after spoof_trace)
    = [Message.mk 1 "bob" "public-chat" "hi" 5 false "b"] /\
  received 2 (wire (after spoof_trace)) = [] /\
  received 1 (wire (after spoof_trace))
    = [Message.mk 1 "bob" "public-chat" "hi" 5 false "b";
       Message.mk 1 "bob" "public-chat" "hi" 5 false "b"].
Proof. repeat split; vm_compute; reflexivity. Qed.

(** C3, amended.  The fan-out sends the stamped message once to every
    registry entry whose identity differs from its sender field and to
    no entry whose identity equals it; after that the connection the
    frame arrived on is sent one echo of the same message.  When the
    sender field is the identity of that connection, the echo is the
    only copy it receives. *)
Theorem fanout_skips_sender_then_echo (s : State) (c : nat) (u : string)
    (m : Message.t) :
  reachable s -> pc_of s c = AtBroadcast u m ->
  exists s' out,
    run s [Run c; Run c] = Some s' /\
    wire s' = wire s ++ out ++ [(c, m)] /\
    out ≡ₚ (fun p : string * User.t => (User.WS p.2, m))
             <$> filter (fun p => p.1 <> Message.From m)
                   (map_to_list (users s)) /\
    (Message.From m = u -> received c (out ++ [(c, m)]) = [m]) /\
    users s' = users s /\
    pc_of s' c = Active u.
Proof.
  intros Hr Hpc. pose proof (reachable_Inv _ Hr) as HI.
  exists (set_pc c (Active u)
            (send [(c, m)]
               (set_pc c (AtEcho u m) (send (broadcast m (users s)) s)))),
    (broadcast m (users s)).
  split.
  { exec. rewrite Hpc. exec. reflexivity. }
  tidy. split; [by rewrite <- app_assoc|].
  assert (Hkeys : Forall (fun p : string * User.t => User.Username p.2 = p.1)
                    (map_to_list (users s))).
  { apply Forall_forall. intros [k usr] Hin.
    apply elem_of_map_to_list in Hin. by apply (inv_users _ HI). }
  split.
  { unfold broadcast. by rewrite (fanout_by_key _ _ Hkeys). }
  split; [|split; [done | by pc_simpl]].
  intros Hfrom. unfold received, broadcast.
  rewrite (fanout_by_key _ _ Hkeys), filter_app.
  rewrite (filter_none (fun p : nat * Message.t => p.1 = c)
             (_ <$> _)).
  { simpl. rewrite filter_cons_True by done. done. }
  apply Forall_forall. intros [h x] Hin Hh. simpl in Hh. subst h.
  apply list_elem_of_fmap in Hin as ([k usr] & Heq & Hin).
  simpl in Heq. injection Heq as Hws _.
  apply list_elem_of_filter in Hin as [Hk Hin]. simpl in Hk.
  apply elem_of_map_to_list in Hin.
  destruct (inv_users _ HI _ _ Hin) as [_ Hid].
  rewrite <- Hws, Hpc in Hid. simpl in Hid. congruence.
Qed.

Lemma fanout_skips_sender_then_echo_witness :
  reachable (after before_broadcast_trace) /\
  pc_of (after before_broadcast_trace) 1
    = AtBroadcast "alice" (Message.mk 1 "alice" "public-chat" "hi" 5 false "a") /\
  exists s',
    run (after before_broadcast_trace) [Run 1; Run 1] = Some s' /\
    received 1 (wire s')
      = [Message.mk 1 "alice" "public-chat" "hi" 5 false "a"].
Proof.
  assert (Hr : reachable (after before_broadcast_trace)).
  { exists 0, before_broadcast_trace. vm_compute. reflexivity. }
  assert (Hpc : pc_of (after before_broadcast_trace) 1
    = AtBroadcast "alice" (Message.mk 1 "alice" "public-chat" "hi" 5 false "a")).
  { vm_compute. reflexivity. }
  split; [exact Hr|]. split; [exact Hpc|].
  destruct (fanout_skips_sender_then_echo _ _ _ _ Hr Hpc)
    as (s' & out & Hrun & Hw & _ & Hone & _).
  exists s'. split; [exact Hrun|].
  rewrite Hw. unfold received. rewrite filter_app.
  replace (filter (fun p : nat * Message.t => p.1 = 1%nat)
             (wire (after before_broadcast_trace)))
    with (@nil (nat * Message.t)) by (vm_compute; reflexivity).
  apply Hone. reflexivity.
Defined.

(** ** The two critical sections (lines 110-126 and 135-160) *)





(** ** The empty sender (lines 110-117) *)

(** C1 fails on the code.  A frame with an empty [from] is not rejected
    by a guard: line 115 indexes the empty string and panics, after the
    id has been consumed and with [msgMu] still locked.  The deferred
    deregistration runs and the connection ends, the message is not
    appended, but the lock is never released: bob's next frame waits at
    line 110 for ever, and so does every history request at line 149. *)
Lemma empty_sender_panics_holding_msgMu :
  pc_of (after panic_trace) 1 = Closing "alice" Panicked /\
  msgMu (after panic_trace) = Some (TConn 1) /\
  msgID (after panic_trace) = 2 /\
  messages (after panic_trace) = [] /\
  (pc_of <$> run (after panic_trace) [Run 1]) ≫= (fun f => Some (f 1%nat))
    = Some (Closed Panicked) /\
  (msgMu <$> run (after panic_trace) [Run 1]) = Some (Some (TConn 1)) /\
  ((fun s => users s !! "alice"%string) <$> run (after panic_trace) [Run 1])
    = Some None /\
  run (after panic_trace)
    [Run 1; RecvFrame 2 (Some (frame "bob" "public-chat" "yo")); Run 2]
    = None /\
  run (after panic_trace)
    [Run 1; HttpMessages 0 (query "public-chat"); RunReq 0]
    = None.
Proof. repeat split; vm_compute; reflexivity. Qed.

(** ** A second invariant: what the stores contain *)

Lemma step_inv_avatar s e s' :
  Inv s -> Inv2 s -> step s e = Some s' ->
  forall k usr, users s' !! k = Some usr -> firstByte k = Some (User.Avatar usr).
Proof.
  intros HI HJ H k usr. pose proof (inv_avatar _ HJ k usr) as Ha.
  destruct e; step_cases H; try no_panic HI; intros Hk; simpl in *;
    try (by apply Ha).
  - unfold register in *. 
    destruct (firstByte username) as [a|] eqn:Hfb; simplify_eq/=.
    rewrite lookup_insert in Hk. case_decide; simplify_eq/=; [done|].
    by apply Ha.
  - unfold deregister in Hk. rewrite lookup_delete in Hk.
    case_decide; simplify_eq/=. by apply Ha.
Qed.

Lemma fanout_elem msg entries h m :
  (h, m) ∈ fanout msg entries -> m = msg.
Proof.
  intros Hin. pose proof (fanout_snd msg entries) as Hall.
  rewrite Forall_forall in Hall. by apply (Hall (h, m)).
Qed.

Lemma step_Inv2 s e s' : Inv s -> Inv2 s -> step s e = Some s' -> Inv2 s'.
Proof.
  intros HI HJ H. split.
  - by eapply step_inv_avatar.
  - (* the log *)
    intros m0. pose proof (inv_stamped_log _ HJ m0) as Hs.
    destruct e; step_cases H; intros Hm; simpl in *; try (by apply Hs).
    apply elem_of_app in Hm as [Hm|Hm]; [by apply Hs|].
    apply list_elem_of_singleton in Hm as ->.
    by eapply (inv_at_append _ HJ).
  - (* line 116 is reached with a stamped message *)
    intros c0 u0 m0. pose proof (inv_at_append _ HJ c0 u0 m0) as Hs.
    destruct e; step_cases H; try no_panic HI; intros Hpc; pcs;
      try (by apply Hs).
    match goal with Hst : stamp _ _ = Some _ |- _ =>
      unfold stamp in Hst; 
      destruct (firstByte _) eqn:Hfb in Hst; simplify_eq/= end.
    by split.
  - (* the message in hand is in the log *)
    intros c0 m0. pose proof (inv_carried _ HJ c0 m0) as Hs.
    destruct e; step_cases H; try no_panic HI; intros Hpc; pcs;
      try (by apply Hs);
      try (apply elem_of_app; left; by apply Hs);
      try (apply elem_of_app; right; by apply list_elem_of_singleton);
      try (match goal with Hq : pc_of s ?c = _ |- _ =>
             apply (inv_carried _ HJ c); by rewrite Hq end).
  - (* what is sent is in the log *)
    intros h0 m0. pose proof (inv_wire _ HJ h0 m0) as Hs.
    destruct e; step_cases H; try no_panic HI; intros Hw; simpl in *;
      try (by apply Hs);
      try (apply elem_of_app; left; by apply Hs).
    + apply elem_of_app in Hw as [Hw|Hw]; [by apply Hs|].
      apply fanout_elem in Hw as ->.
      match goal with Hq : pc_of s ?c = _ |- _ =>
        apply (inv_carried _ HJ c); by rewrite Hq end.
    + apply elem_of_app in Hw as [Hw|Hw]; [by apply Hs|].
      apply list_elem_of_singleton in Hw. simplify_eq.
      match goal with Hq : pc_of s ?c = _ |- _ =>
        apply (inv_carried _ HJ c); by rewrite Hq end.
  - (* the directory *)
    destruct (inv_directory _ HJ) as (x & Hx & Hseed & Hlast).
    destruct e; step_cases H; try no_panic HI; simpl in *;
      try (by exists x);
      try (exists x; split; [done|]; split; [done|];
           destruct Hlast as [?|(m0 & ? & ? & ?)]; [by left|];
           right; exists m0; split; [apply elem_of_app; by left | done]).
    + (* line 122 *)
      rewrite Hx in *. simpl in H1.
      destruct (decide (Session.ID x = Message.To msg)) as [Hid|]; [|done].
      unfold setLastMsg in H2. simplify_eq/=.
      exists (withLastMsg (Message.Content msg) x).
      split; [done|]. split; [done|]. right. exists msg.
      split; [apply (inv_carried _ HJ c); by rewrite H0|].
      destruct Hseed as [Hs _]. split; [congruence | done].
    + (* line 123 *)
      pose proof (inv_index _ HI _ _ _ _ H0) as Hlt.
      rewrite Hx in *. simpl in Hlt.
      destruct i as [|i]; [|lia]. unfold setLastTime in *. simplify_eq/=.
      exists (withLastTime (Message.Timestamp msg) x). done.
Qed.

Lemma init_Inv2 t0 : Inv2 (init_state t0).
Proof.
  split; simpl.
  - intros k usr Hk. by rewrite lookup_empty in Hk.
  - intros m Hm. by apply elem_of_nil in Hm.
  - intros c u m. unfold pc_of. simpl. by rewrite lookup_empty.
  - intros c m. unfold pc_of. simpl. by rewrite lookup_empty.
  - intros h m Hm. by apply elem_of_nil in Hm.
  - exists (publicChat t0). split; [done|]. split; [done|]. by left.
Qed.

Lemma run_Inv2 tr : forall s s',
  Inv s -> Inv2 s -> run s tr = Some s' -> Inv2 s'.
Proof.
  induction tr as [|e tr IH]; intros s s' HI HJ H; simpl in H.
  - by simplify_eq.
  - destruct (step s e) as [s1|] eqn:Hs; [|done].
    eapply IH; [by eapply step_Inv | by eapply step_Inv2 | exact H].
Qed.

Lemma reachable_Inv2 s : reachable s -> Inv2 s.
Proof.
  intros (t0 & tr & H).
  eapply run_Inv2; [apply init_Inv | apply init_Inv2 | exact H].
Qed.


(** ** The connection life cycle *)

Lemma step_closed_stable s e s' c ex :
  step s e = Some s' -> pc_of s c = Closed ex -> pc_of s' c = Closed ex.
Proof.
  intros H Hc. destruct e; step_cases H; pcs; congruence.
Qed.

Lemma run_closed_stable tr : forall s s' c ex,
  run s tr = Some s' -> pc_of s c = Closed ex -> pc_of s' c = Closed ex.
Proof.
  induction tr as [|e tr IH]; intros s s' c ex H Hc; simpl in H.
  - by simplify_eq.
  - destruct (step s e) as [s1|] eqn:Hs; [|done].
    eapply IH; [exact H|]. by eapply step_closed_stable.
Qed.



(** X2.  A handshake that fails, or that yields the empty identity,
    closes the connection without registering it: the step changes
    nothing but the state of the connection, and no later state has a
    registry entry whose handle is this connection. *)
Theorem failed_handshake_never_registers (s : State) (c : nat)
    (r : option string) (tr : list Event) (s' : State) :
  reachable s -> pc_of s c = Handshake ->
  r = None \/ r = Some ""%string ->
  run s (RecvIdentity c r :: tr) = Some s' ->
  step s (RecvIdentity c r) = Some (set_pc c (Closed Returned) s) /\
  pc_of s' c = Closed Returned /\
  (forall k usr, users s' !! k = Some usr -> User.WS usr <> c).
Proof.
  intros Hr Hc Hfail Hrun.
  assert (Hs : step s (RecvIdentity c r) = Some (set_pc c (Closed Returned) s)).
  { unfold step. rewrite Hc. by destruct Hfail as [-> | ->]. }
  split; [exact Hs|].
  pose proof Hrun as Hrun'. rewrite run_cons, Hs in Hrun'.
  assert (Hc' : pc_of s' c = Closed Returned).
  { eapply run_closed_stable; [exact Hrun'|]. by rewrite pc_of_set_pc_eq. }
  split; [exact Hc'|].
  intros k usr Hk Hws.
  pose proof (reachable_Inv _ (reachable_run _ _ _ Hr Hrun)) as HI.
  destruct (inv_users _ HI _ _ Hk) as [_ Hid].
  rewrite Hws, Hc' in Hid. done.
Qed.

Lemma failed_handshake_never_registers_witness :
  reachable (after two_clients) /\
  pc_of (after two_clients) 3 = Handshake /\
  forall s',
    run (after two_clients)
      (RecvIdentity 3 (Some ""%string)
         :: RecvFrame 1 (Some (frame "alice" "public-chat" "hi"))
         :: turn 1 5 true) = Some s' ->
    pc_of s' 3 = Closed Returned /\
    forall k usr, users s' !! k = Some usr -> User.WS usr <> 3%nat.
Proof.
  assert (Hr : reachable (after two_clients)).
  { exists 0, two_clients. vm_compute. reflexivity. }
  assert (Hc : pc_of (after two_clients) 3 = Handshake).
  { vm_compute. reflexivity. }
  split; [exact Hr|]. split; [exact Hc|].
  intros s' Hrun.
  destruct (failed_handshake_never_registers _ 3%nat (Some ""%string) _ s' Hr Hc
              (or_intror eq_refl) Hrun) as (_ & H1 & H2).
  split; [exact H1 | exact H2].
Defined.

(** ** The registry *)

(** X3.  Every registry entry is well formed in every reachable state:
    it is stored under its own user name, which is not empty; its avatar
    is [string(username[0])]; its handle is a connection that shook
    hands under that name and has not run its deregistration yet; and
    no handle occurs under two keys. *)
Theorem registry_entries_wellformed (s : State) (k : string)
    (usr : User.t) :
  reachable s -> users s !! k = Some usr ->
  User.Username usr = k /\ k <> ""%string /\
  firstByte k = Some (User.Avatar usr) /\
  identity (pc_of s (User.WS usr)) = Some k /\
  (forall k' usr', users s !! k' = Some usr' ->
                   User.WS usr' = User.WS usr -> k' = k).
Proof.
  intros Hr Hk. pose proof (reachable_Inv _ Hr) as HI.
  pose proof (reachable_Inv2 _ Hr) as HJ.
  destruct (inv_users _ HI _ _ Hk) as [Hname Hid].
  split; [exact Hname|]. split.
  { apply (inv_names _ HI (User.WS usr)).
    destruct (pc_of s (User.WS usr)); simpl in *; congruence. }
  split; [by apply (inv_avatar _ HJ)|]. split; [exact Hid|].
  intros k' usr' Hk' Hws.
  destruct (inv_users _ HI _ _ Hk') as [_ Hid'].
  rewrite Hws in Hid'. congruence.
Qed.

Lemma registry_entries_wellformed_witness :
  reachable (after race_trace) /\
  users (after race_trace) !! "bob"%string = Some (User.mk "bob" "b" 2) /\
  identity (pc_of (after race_trace) 2) = Some "bob"%string.
Proof.
  assert (Hr : reachable (after race_trace)).
  { exists 0, race_trace. vm_compute. reflexivity. }
  assert (Hk : users (after race_trace) !! "bob"%string
               = Some (User.mk "bob" "b" 2)).
  { vm_compute. reflexivity. }
  split; [exact Hr|]. split; [exact Hk|].
  destruct (registry_entries_wellformed _ _ _ Hr Hk) as (_ & _ & _ & Hid & _).
  exact Hid.
Defined.

(** ** The log *)

Lemma step_wire_prefix s e s' :
  step s e = Some s' -> wire s `prefix_of` wire s'.
Proof.
  intros H. destruct e; step_cases H; simpl; try done;
    by apply prefix_app_r.
Qed.

Lemma run_wire_prefix tr : forall s s',
  run s tr = Some s' -> wire s `prefix_of` wire s'.
Proof.
  induction tr as [|e tr IH]; intros s s' H; simpl in H.
  - by simplify_eq.
  - destruct (step s e) as [s1|] eqn:Hs; [|done].
    etrans; [by eapply step_wire_prefix | by apply IH].
Qed.

(** X4.  The log is append-only: whatever happens, the log of an earlier
    state is a prefix of the log of a later one, so an entry keeps its
    position and its content for ever. *)
Theorem log_is_append_only (s s' : State) (tr : list Event) :
  run s tr = Some s' ->
  messages s `prefix_of` messages s' /\
  (forall i m, messages s !! i = Some m -> messages s' !! i = Some m).
Proof.
  intros H. pose proof (run_messages_prefix _ _ _ H) as Hp.
  split; [exact Hp|].
  intros i m Hi. by eapply prefix_lookup_Some.
Qed.

Lemma log_is_append_only_witness :
  run (after forged_trace) (turn 1 5 true) = Some (after forged_done_trace) /\
  messages (after forged_trace) `prefix_of` messages (after forged_done_trace).
Proof.
  assert (H : run (after forged_trace) (turn 1 5 true)
              = Some (after forged_done_trace)).
  { vm_compute. reflexivity. }
  split; [exact H|].
  destruct (log_is_append_only _ _ _ H) as [Hp _]. exact Hp.
Defined.

(** X5.  Every message of the log is as lines 113-115 leave it: its read
    flag is false, its sender is not empty and its avatar is
    [string(from[0])]. *)
Theorem logged_messages_are_stamped (s : State) (m : Message.t) :
  reachable s -> m ∈ messages s ->
  Message.IsRead m = false /\
  Message.From m <> ""%string /\
  firstByte (Message.From m) = Some (Message.Avatar m).
Proof.
  intros Hr Hm.
  destruct (inv_stamped_log _ (reachable_Inv2 _ Hr) m Hm) as [Hread Hav].
  split; [exact Hread|]. split; [|exact Hav].
  intros Hempty. by rewrite Hempty in Hav.
Qed.

Lemma logged_messages_are_stamped_witness :
  reachable (after forged_done_trace) /\
  Message.mk 1 "alice" "public-chat" "hi" 5 false "a"
    ∈ messages (after forged_done_trace) /\
  firstByte "alice" = Some "a"%string.
Proof.
  assert (Hr : reachable (after forged_done_trace)).
  { exists 0, forged_done_trace. vm_compute. reflexivity. }
  assert (Hm : Message.mk 1 "alice" "public-chat" "hi" 5 false "a"
                 ∈ messages (after forged_done_trace)).
  { vm_compute. left. }
  split; [exact Hr|]. split; [exact Hm|].
  destruct (logged_messages_are_stamped _ _ Hr Hm) as (_ & _ & Hav).
  exact Hav.
Defined.

(** X6.  The server sends nothing but its log: every message that is
    written to a websocket, by the fan-out or as an echo, is an entry of
    the message log at that time (and so for ever after). *)
Theorem only_logged_messages_are_sent (s : State) (h : nat)
    (m : Message.t) :
  reachable s -> (h, m) ∈ wire s -> m ∈ messages s.
Proof.
  intros Hr Hw. by apply (inv_wire _ (reachable_Inv2 _ Hr) h).
Qed.

Lemma only_logged_messages_are_sent_witness :
  reachable (after spoof_trace) /\
  (1%nat, Message.mk 1 "bob" "public-chat" "hi" 5 false "b")
    ∈ wire (after spoof_trace) /\
  Message.mk 1 "bob" "public-chat" "hi" 5 false "b"
    ∈ messages (after spoof_trace).
Proof.
  assert (Hr : reachable (after spoof_trace)).
  { exists 0, spoof_trace. vm_compute. reflexivity. }
  assert (Hw : (1%nat, Message.mk 1 "bob" "public-chat" "hi" 5 false "b")
                 ∈ wire (after spoof_trace)).
  { vm_compute. left. }
  split; [exact Hr|]. split; [exact Hw|].
  exact (only_logged_messages_are_sent _ _ _ Hr Hw).
Defined.

(** ** The session directory *)

(** X7.  The session directory always consists of the one public room
    that [init] puts there: no session is ever added or removed, its
    id, name, avatar, group flag and unread counter never change, and
    its last message is either the welcome text or the content of a
    logged message addressed to [public-chat]. *)
Theorem directory_is_the_public_room (s : State) :
  reachable s ->
  exists x,
    sessions s = [x] /\ seeded x /\
    (Session.LastMsg x = Session.LastMsg (publicChat 0) \/
     exists m, m ∈ messages s /\ Message.To m = "public-chat"%string /\
               Session.LastMsg x = Message.Content m).
Proof. intros Hr. exact (inv_directory _ (reachable_Inv2 _ Hr)). Qed.

Lemma directory_is_the_public_room_witness :
  reachable (after lost_update_trace) /\
  exists x, sessions (after lost_update_trace) = [x] /\
            Session.Unread x = 0 /\ Session.IsGroup x = true.
Proof.
  assert (Hr : reachable (after lost_update_trace)).
  { exists 0, lost_update_trace. vm_compute. reflexivity. }
  split; [exact Hr|].
  destruct (directory_is_the_public_room _ Hr)
    as (x & Hx & (_ & _ & _ & Hg & Hu) & _).
  exists x. split; [exact Hx|]. split; [exact Hu | exact Hg].
Defined.

(** ** Panics *)

(** X8.  The only statement of [wsHandler] that can panic is line 115,
    and only on a frame whose [from] is empty: the handshake guard keeps
    line 90 safe and the session list never shrinks under lines 122 and
    123.  When it happens the connection holds [msgMu]. *)
Theorem only_empty_sender_panics (s : State) (e : Event) (s' : State)
    (c : nat) :
  reachable s -> step s e = Some s' ->
  ~ dead (pc_of s c) -> dead (pc_of s' c) ->
  exists u m now,
    e = Clock c now /\ pc_of s c = AtStamp u m /\
    Message.From m = ""%string /\
    msgMu s = Some (TConn c) /\ msgMu s' = Some (TConn c).
Proof.
  intros Hr H Hlive Hdead. pose proof (reachable_Inv _ Hr) as HI.
  destruct e; step_cases H; try no_panic HI; pcs; try done.
  { (* the deferred deregistration of a panicking handler *)
    rewrite H0 in Hlive. simpl in Hlive. done. }
  match goal with
  | Hq : pc_of s ?c = AtStamp ?u ?m, Hst : stamp ?now ?m = None |- _ =>
      exists u, m, now; split; [done|]; split; [done|];
      split; [apply firstByte_None; unfold stamp in Hst;
              by destruct (firstByte (Message.From m))|];
      assert (msgMu s = Some (TConn c))
        by (apply (inv_excl _ HI); by rewrite Hq); done
  end.
Qed.

Lemma only_empty_sender_panics_witness :
  reachable (after pre_panic_trace) /\
  step (after pre_panic_trace) (Clock 1 5) = Some (after panic_trace) /\
  ~ dead (pc_of (after pre_panic_trace) 1) /\
  dead (pc_of (after panic_trace) 1) /\
  exists u m,
    pc_of (after pre_panic_trace) 1 = AtStamp u m /\
    Message.From m = ""%string.
Proof.
  assert (Hr : reachable (after pre_panic_trace)).
  { exists 0, pre_panic_trace. vm_compute. reflexivity. }
  assert (Hs : step (after pre_panic_trace) (Clock 1 5)
               = Some (after panic_trace)).
  { vm_compute. reflexivity. }
  assert (Hl : ~ dead (pc_of (after pre_panic_trace) 1)).
  { vm_compute. intros []. }
  assert (Hd : dead (pc_of (after panic_trace) 1)).
  { vm_compute. exact I. }
  split; [exact Hr|]. split; [exact Hs|]. split; [exact Hl|].
  split; [exact Hd|].
  destruct (only_empty_sender_panics _ _ _ _ Hr Hs Hl Hd)
    as (u & m & now & _ & Hpc & Hfrom & _).
  exists u, m. split; [exact Hpc | exact Hfrom].
Defined.


Lemma step_frozen s0 s e s' c :
  Inv s -> dead (pc_of s c) -> newer_requests_stuck s0 s ->
  step s e = Some s' ->
  messages s' = messages s /\ msgID s' = msgID s /\
  dead (pc_of s' c) /\ newer_requests_stuck s0 s'.
Proof.
  intros HI Hd Hq H.
  assert (Hmu : msgMu s = Some (TConn c)) by by apply (inv_dead _ HI).
  unfold newer_requests_stuck in *.
  destruct e; step_cases H; holder HI; simplify_eq;
    try (exfalso;
         repeat match goal with
                | Hp : pc_of _ _ = _ |- _ => rewrite Hp in Hd
                end; exact Hd);
    simpl; autorewrite with state.
  all: split; [done|]; split; [done|]; split.
  all: try (case_decide; [subst|exact Hd];
            match goal with
            | Hp : pc_of _ _ = _ |- _ => rewrite Hp in Hd
            end; simpl in Hd; done).
  all: try exact Hq.
  all: try exact Hd.
  all: intros r0 pc0 Hfresh Hr0; rewrite lookup_insert in Hr0;
       case_decide; simplify_eq; try done; try (by eapply Hq).
Qed.

Lemma run_frozen tr : forall s0 s s' c,
  Inv s -> dead (pc_of s c) -> newer_requests_stuck s0 s ->
  run s tr = Some s' ->
  messages s' = messages s /\ msgID s' = msgID s /\
  dead (pc_of s' c) /\ newer_requests_stuck s0 s'.
Proof.
  induction tr as [|e tr IH]; intros s0 s s' c HI Hd Hq H; simpl in H.
  - by simplify_eq.
  - destruct (step s e) as [s1|] eqn:Hs; [|done].
    destruct (step_frozen _ _ _ _ _ HI Hd Hq Hs) as (Hm & Hi & Hd1 & Hq1).
    destruct (IH s0 s1 s' c (step_Inv _ _ _ HI Hs) Hd1 Hq1 H)
      as (Hm' & Hi' & Hd' & Hq').
    repeat split; try done; congruence.
Qed.

(** X9.  Once a handler has panicked, the message log is frozen: in
    every later state the log and the id counter are what they were,
    [msgMu] is still held by the dead handler, no other handler has
    panicked, and no history request that arrived after the panic has
    been answered with a history. *)
Theorem panic_freezes_the_log (s : State) (c : nat) (tr : list Event)
    (s' : State) :
  reachable s -> dead (pc_of s c) -> run s tr = Some s' ->
  messages s' = messages s /\ msgID s' = msgID s /\
  msgMu s' = Some (TConn c) /\
  (forall c', dead (pc_of s' c') -> c' = c) /\
  (forall r resp ms,
     reqs s !! r = None -> reqs s' !! r = Some (ReqDone resp) ->
     body resp <> MessagesBody ms).
Proof.
  intros Hr Hd Hrun. pose proof (reachable_Inv _ Hr) as HI.
  assert (Hq : newer_requests_stuck s s).
  { intros r pc Hnone Hsome. congruence. }
  destruct (run_frozen _ _ _ _ _ HI Hd Hq Hrun) as (Hm & Hi & Hd' & Hq').
  pose proof (run_Inv _ _ _ HI Hrun) as HI'.
  split; [exact Hm|]. split; [exact Hi|].
  assert (Hmu : msgMu s' = Some (TConn c)) by by apply (inv_dead _ HI').
  split; [exact Hmu|]. split.
  - intros c' Hc'. apply (inv_dead _ HI') in Hc'. congruence.
  - intros r resp ms Hnone Hdone. exact (Hq' _ _ Hnone Hdone ms).
Qed.

Lemma panic_freezes_the_log_witness :
  reachable (after panic_trace) /\
  dead (pc_of (after panic_trace) 1) /\
  exists s',
    run (after panic_trace) aftermath = Some s' /\
    messages s' = [] /\
    pc_of s' 2 = AtLock "bob" (frame "bob" "public-chat" "yo") /\
    reqs s' !! 0%nat = Some (MAtLock "public-chat").
Proof.
  assert (Hr : reachable (after panic_trace)).
  { exists 0, panic_trace. vm_compute. reflexivity. }
  assert (Hd : dead (pc_of (after panic_trace) 1)).
  { vm_compute. exact I. }
  assert (Hrun : run (after panic_trace) aftermath
                 = Some (after (panic_trace ++ aftermath))).
  { vm_compute. reflexivity. }
  split; [exact Hr|]. split; [exact Hd|].
  exists (after (panic_trace ++ aftermath)). split; [exact Hrun|].
  destruct (panic_freezes_the_log _ _ _ _ Hr Hd Hrun) as (Hm & _).
  split; [rewrite Hm; vm_compute; reflexivity|].
  split; vm_compute; reflexivity.
Defined.

(** ** Progress *)

(** X10.  Whoever holds [msgMu] can take its next step, unless it is a
    handler that has panicked: a connection inside the critical section
    is never blocked (line 113-115 only needs the clock), and a history
    request inside it is never blocked either.  So without a panic the
    lock is always on its way to being released. *)
Theorem lock_holder_can_move (s : State) (t : Tid) :
  reachable s -> msgMu s = Some t ->
  match t with
  | TConn c =>
      dead (pc_of s c) \/ is_Some (step s (Run c)) \/
      (forall now, is_Some (step s (Clock c now)))
  | TReq r => is_Some (step s (RunReq r))
  end.
Proof.
  intros Hr Hmu. pose proof (inv_counter _ (reachable_Inv _ Hr)) as Hc.
  unfold counter_ok in Hc. rewrite Hmu in Hc.
  destruct t as [c|r].
  - unfold step, run_conn.
    destruct (pc_of s c) as [| | | | | | u m | | | | | | |u [] |[]] eqn:Hpc;
      try done; try (right; left; by eexists); try (by left).
    right. right. intros now. destruct (stamp now m); by eexists.
  - unfold step, run_req.
    destruct (reqs s !! r) as [[]|]; try done; by eexists.
Qed.

Lemma lock_holder_can_move_witness :
  reachable (after locked_trace) /\
  msgMu (after locked_trace) = Some (TConn 1) /\
  ~ dead (pc_of (after locked_trace) 1) /\
  (is_Some (step (after locked_trace) (Run 1)) \/
   forall now, is_Some (step (after locked_trace) (Clock 1 now))).
Proof.
  assert (Hr : reachable (after locked_trace)).
  { exists 0, locked_trace. vm_compute. reflexivity. }
  assert (Hmu : msgMu (after locked_trace) = Some (TConn 1)).
  { vm_compute. reflexivity. }
  assert (Hl : ~ dead (pc_of (after locked_trace) 1)).
  { vm_compute. intros []. }
  split; [exact Hr|]. split; [exact Hmu|]. split; [exact Hl|].
  destruct (lock_holder_can_move _ _ Hr Hmu) as [Hd|Hmove].
  - destruct (Hl Hd).
  - exact Hmove.
Defined.

(** ** The HTTP endpoints *)




(** ** How a turn of the loop shows in the two endpoints *)

(** X12.  After a connection has processed a frame, the stamped message
    is the last entry of the history of its recipient, and the history
    of every other recipient is what it was. *)
Theorem history_after_a_turn (s : State) (c : nat) (u : string)
    (m : Message.t) (now : Time) (r : string) :
  pc_of s c = AtLock u m -> msgMu s = None ->
  Message.From m <> ""%string ->
  exists found s' m',
    run s (turn c now found) = Some s' /\
    Message.To m' = Message.To m /\
    Message.Content m' = Message.Content m /\
    history_spec r (messages s')
      = history_spec r (messages s)
        ++ (if decide (Message.To m = r) then [m'] else []) /\
    (r <> ""%string ->
     messagesHandler (query r) (messages s')
     = jsonMessages (history_spec r (messages s)
                     ++ (if decide (Message.To m = r) then [m'] else []))).
Proof.
  intros Hpc Hmu Hne.
  destruct (turn_spec s c u m now Hpc Hmu Hne)
    as (a & found & ss' & s' & Ha & _ & Hrun & H).
  simpl in H. destruct H as (_ & Hm & _).
  exists found, s',
    (Message.mk (msgID s) (Message.From m) (Message.To m)
       (Message.Content m) now false a).
  split; [exact Hrun|]. split; [done|]. split; [done|].
  assert (Hh : history_spec r (messages s')
               = history_spec r (messages s)
                 ++ (if decide (Message.To m = r)
                     then [Message.mk (msgID s) (Message.From m)
                             (Message.To m) (Message.Content m) now false a]
                     else [])).
  { rewrite Hm. unfold history_spec. rewrite filter_app.
    rewrite (filter_cons _ _ []). simpl.
    by destruct (decide (Message.To m = r)). }
  split; [exact Hh|].
  intros Hr. unfold messagesHandler.
  replace (Get (query r) "session_id") with r by reflexivity.
  rewrite decide_False by done. by rewrite collect_history, Hh.
Qed.

Lemma history_after_a_turn_witness :
  pc_of (after forged_trace) 1 = AtLock "alice" forged /\
  msgMu (after forged_trace) = None /\
  (exists found s',
     run (after forged_trace) (turn 1 5 found) = Some s' /\
     length (history_spec "public-chat" (messages s')) = 1%nat) /\
  (exists found s',
     run (after forged_trace) (turn 1 5 found) = Some s' /\
     history_spec "nobody" (messages s') = []).
Proof.
  assert (Hpc : pc_of (after forged_trace) 1 = AtLock "alice" forged).
  { vm_compute. reflexivity. }
  assert (Hmu : msgMu (after forged_trace) = None).
  { vm_compute. reflexivity. }
  assert (Hne : Message.From forged <> ""%string).
  { vm_compute. discriminate. }
  split; [exact Hpc|]. split; [exact Hmu|]. split.
  - destruct (history_after_a_turn _ 1%nat "alice" forged 5 "public-chat"
                Hpc Hmu Hne)
      as (found & s' & m' & Hrun & _ & _ & Hh & _).
    exists found, s'. split; [exact Hrun|].
    rewrite Hh. vm_compute. reflexivity.
  - destruct (history_after_a_turn _ 1%nat "alice" forged 5 "nobody"
                Hpc Hmu Hne)
      as (found & s' & m' & Hrun & _ & _ & Hh & _).
    exists found, s'. split; [exact Hrun|].
    rewrite Hh. vm_compute. reflexivity.
Defined.

(** X13.  In a reachable state, a frame addressed to [public-chat] that
    a connection processes without interference leaves the public room
    with the content of the frame as last message and the clock reading
    as last time, and that is what [/api/sessions] then answers. *)
Theorem public_room_summary_after_a_turn (s : State) (c : nat)
    (u : string) (m : Message.t) (now : Time) :
  reachable s ->
  pc_of s c = AtLock u m -> msgMu s = None ->
  Message.From m <> ""%string ->
  Message.To m = "public-chat"%string ->
  exists x s',
    sessions s = [x] /\
    run s (turn c now true) = Some s' /\
    sessions s' = [withLastTime now (withLastMsg (Message.Content m) x)] /\
    (forall r, reqs s' !! r = None ->
       step s' (HttpSessions r)
       = Some (set_req r
                 (ReqDone (sessionsHandler
                    [withLastTime now (withLastMsg (Message.Content m) x)]))
                 s')).
Proof.
  intros Hr Hpc Hmu Hne Hto.
  destruct (inv_directory _ (reachable_Inv2 _ Hr))
    as (x & Hx & (Hid & _) & _).
  destruct (turn_spec s c u m now Hpc Hmu Hne)
    as (a & found & ss' & s' & _ & Hus & Hrun & H).
  simpl in H. destruct H as (_ & _ & Hss & _).
  rewrite Hx in Hus. unfold updateSummary in Hus. simpl in Hus.
  rewrite decide_True in Hus by congruence.
  unfold setLastMsg, setLastTime in Hus. simpl in Hus.
  injection Hus as <- <-.
  exists x, s'. split; [exact Hx|]. split; [exact Hrun|].
  split; [exact Hss|].
  intros r Hnone. unfold step. by rewrite Hnone, Hss.
Qed.

Lemma public_room_summary_after_a_turn_witness :
  reachable (after forged_trace) /\
  pc_of (after forged_trace) 1 = AtLock "alice" forged /\
  msgMu (after forged_trace) = None /\
  exists s',
    run (after forged_trace) (turn 1 5 true) = Some s' /\
    Session.LastMsg <$> sessions s' = ["hi"%string] /\
    Session.LastTime <$> sessions s' = [5].
Proof.
  assert (Hr : reachable (after forged_trace)).
  { exists 0, forged_trace. vm_compute. reflexivity. }
  assert (Hpc : pc_of (after forged_trace) 1 = AtLock "alice" forged).
  { vm_compute. reflexivity. }
  assert (Hmu : msgMu (after forged_trace) = None).
  { vm_compute. reflexivity. }
  assert (Hne : Message.From forged <> ""%string).
  { vm_compute. discriminate. }
  split; [exact Hr|]. split; [exact Hpc|]. split; [exact Hmu|].
  destruct (public_room_summary_after_a_turn _ 1%nat "alice" forged 5 Hr Hpc
              Hmu Hne eq_refl)
    as (x & s' & Hx & Hrun & Hss & _).
  exists s'. split; [exact Hrun|]. rewrite Hss. split; reflexivity.
Defined.

(** ** The result slice of the history endpoint *)

Lemma collectSlice_from sessionID msgs : forall acc,
  fold_left
    (fun res msg =>
       if decide (Message.To msg = sessionID) then appendSlice res msg
       else res)
    msgs acc
  = match acc, history_spec sessionID msgs with
    | None, [] => None
    | _, h => Some (default [] acc ++ h)
    end.
Proof.
  unfold history_spec.
  induction msgs as [|m msgs IH]; intros acc; simpl.
  - destruct acc as [l|]; [|done]. simpl. by rewrite app_nil_r.
  - rewrite IH, filter_cons.
    destruct (decide (Message.To m = sessionID)) as [Hm|Hm].
    + destruct acc as [l|]; simpl.
      * destruct (filter _ msgs); by rewrite <- app_assoc.
      * by destruct (filter _ msgs).
    + done.
Qed.

(** X14.  The slice that [messagesHandler] hands to the JSON encoder is
    nil exactly when no message of the log matches; otherwise it is a
    non-nil slice holding the history.  In both cases its elements are
    the history of the specification. *)
Theorem history_slice_nil_iff_no_match (sessionID : string)
    (msgs : list Message.t) :
  (collectSlice sessionID msgs = None <->
   forall m, m ∈ msgs -> Message.To m <> sessionID) /\
  default [] (collectSlice sessionID msgs) = collect sessionID msgs /\
  (collectSlice sessionID [] = None).
Proof.
  unfold collectSlice. rewrite collectSlice_from, collect_history.
  split; [|split; [|done]].
  - split.
    + destruct (history_spec sessionID msgs) as [|h t] eqn:Hh; [|done].
      intros _ m Hm Hto.
      assert (Hin : m ∈ history_spec sessionID msgs).
      { unfold history_spec. apply list_elem_of_filter. by split. }
      rewrite Hh in Hin. by apply elem_of_nil in Hin.
    + intros Hall. unfold history_spec.
      rewrite filter_none; [done|].
      apply Forall_forall. intros m Hm. by apply Hall.
  - by destruct (history_spec sessionID msgs).
Qed.

(** ** The avatar (lines 90 and 115) *)

Lemma string_of_byte_roundtrip (b : ascii) :
  rune_of_utf8 (string_of_byte b) = Some (N_of_ascii b) /\
  (1 <= String.length (string_of_byte b) <= 2)%nat /\
  ((N_of_ascii b < 128)%N -> string_of_byte b = String b EmptyString).
Proof.
  destruct b as [[] [] [] [] [] [] [] []];
    (split; [vm_compute; reflexivity|]);
    (split; [vm_compute; lia|]);
    intros Hlt; first [reflexivity | vm_compute in Hlt; discriminate].
Qed.

(** X15.  The avatar is the UTF-8 encoding of the code point whose
    number is the first byte of the name: it is never empty, it has one
    byte when that byte is ASCII, and then it is the first character of
    the name, and two bytes otherwise; decoding it gives the byte back. *)
Theorem avatar_encodes_first_byte (s a : string) :
  firstByte s = Some a ->
  exists b rest,
    s = String b rest /\
    rune_of_utf8 a = Some (N_of_ascii b) /\
    (1 <= String.length a <= 2)%nat /\
    ((N_of_ascii b < 128)%N -> a = String b EmptyString).
Proof.
  destruct s as [|b rest]; [done|].
  unfold firstByte. simpl. intros [= <-].
  exists b, rest. split; [done|]. apply string_of_byte_roundtrip.
Qed.

Lemma avatar_encodes_first_byte_witness :
  firstByte "alice" = Some "a"%string /\
  rune_of_utf8 "a" = Some 97%N.
Proof.
  assert (H : firstByte "alice" = Some "a"%string) by reflexivity.
  split; [exact H|].
  destruct (avatar_encodes_first_byte _ _ H) as (b & rest & Hs & Hr & _).
  injection Hs as <- _. exact Hr.
Defined.

(** ** main (lines 174-181) *)


(** ** How many peers a broadcast reaches *)

Lemma entries_without_key (us : gmap string User.t) (k : string) :
  filter (fun p : string * User.t => p.1 <> k) (map_to_list us)
  ≡ₚ map_to_list (delete k us).
Proof.
  apply NoDup_Permutation.
  - apply NoDup_filter, NoDup_map_to_list.
  - apply NoDup_map_to_list.
  - intros [k' x]. rewrite list_elem_of_filter, !elem_of_map_to_list.
    rewrite lookup_delete_Some. simpl.
    split; intros [Hne Hin]; (split; [congruence | exact Hin]).
Qed.

(** X17.  In a reachable state a broadcast performs one send for every
    registered identity other than the sender of the message: as many
    as the registry has entries, less one if the sender is registered. *)
Theorem number_of_fanout_sends (s : State) (m : Message.t) :
  reachable s ->
  length (broadcast m (users s))
  = match users s !! Message.From m with
    | Some _ => pred (size (users s))
    | None => size (users s)
    end.
Proof.
  intros Hr. pose proof (reachable_Inv _ Hr) as HI.
  assert (Hkeys : Forall (fun p : string * User.t => User.Username p.2 = p.1)
                    (map_to_list (users s))).
  { apply Forall_forall. intros [k usr] Hin.
    apply elem_of_map_to_list in Hin. by apply (inv_users _ HI). }
  unfold broadcast. rewrite (fanout_by_key _ _ Hkeys), length_fmap.
  rewrite entries_without_key, length_map_to_list, map_size_delete.
  by destruct (users s !! Message.From m).
Qed.

Lemma number_of_fanout_sends_witness :
  reachable (after two_clients) /\
  length (broadcast (frame "alice" "public-chat" "hi")
            (users (after two_clients))) = 1%nat /\
  length (broadcast (frame "carol" "public-chat" "hi")
            (users (after two_clients))) = 2%nat.
Proof.
  assert (Hr : reachable (after two_clients)).
  { exists 0, two_clients. vm_compute. reflexivity. }
  split; [exact Hr|]. split.
  - rewrite (number_of_fanout_sends _ _ Hr). vm_compute. reflexivity.
  - rewrite (number_of_fanout_sends _ _ Hr). vm_compute. reflexivity.
Defined.

(** ** One turn of the loop, seen from outside *)



(** ** The identity of a connection *)

Lemma step_name_fixed s e s' c u :
  step s e = Some s' -> name_of (pc_of s c) = Some u ->
  name_of (pc_of s' c) = Some u \/ exists ex, pc_of s' c = Closed ex.
Proof.
  intros H Hn.
  destruct e; step_cases H; pcs;
    try (by left);
    try (match goal with
         | Hq : pc_of s ?c = _ |- _ => rewrite Hq in Hn; simpl in Hn
         end; simplify_eq; first [by left | right; by eexists]).
Qed.

(** X19.  The identity of a connection is fixed by its handshake: once
    the user name is set it stays the same in every later state, until
    the connection is closed. *)
Theorem identity_is_fixed (s : State) (tr : list Event) (s' : State)
    (c : nat) (u : string) :
  run s tr = Some s' -> name_of (pc_of s c) = Some u ->
  name_of (pc_of s' c) = Some u \/ exists ex, pc_of s' c = Closed ex.
Proof.
  revert s. induction tr as [|e tr IH]; intros s H Hn; simpl in H.
  - simplify_eq. by left.
  - destruct (step s e) as [s1|] eqn:Hs; [|done].
    destruct (step_name_fixed _ _ _ _ _ Hs Hn) as [Hn1|[ex Hc]].
    + by apply (IH s1).
    + right. exists ex. by eapply run_closed_stable.
Qed.

Lemma identity_is_fixed_witness :
  run (after two_clients) (RecvFrame 1 (Some forged) :: turn 1 5 true)
    = Some (after forged_done_trace) /\
  name_of (pc_of (after two_clients) 1) = Some "alice"%string /\
  name_of (pc_of (after forged_done_trace) 1) = Some "alice"%string.
Proof.
  assert (Hrun : run (after two_clients)
                   (RecvFrame 1 (Some forged) :: turn 1 5 true)
                 = Some (after forged_done_trace)).
  { vm_compute. reflexivity. }
  assert (Hn : name_of (pc_of (after two_clients) 1) = Some "alice"%string).
  { vm_compute. reflexivity. }
  split; [exact Hrun|]. split; [exact Hn|].
  destruct (identity_is_fixed _ _ _ _ _ Hrun Hn) as [H|[ex H]].
  - exact H.
  - vm_compute in H. discriminate.
Defined.

(** ** Who can be sent to *)

Lemma step_unregistered s e s' c :
  step s e = Some s' -> unregistered (pc_of s' c) -> unregistered (pc_of s c).
Proof.
  intros H Hu. destruct e; step_cases H; pcs; try done;
    match goal with Hq : pc_of s _ = _ |- _ => by rewrite Hq end.
Qed.

Lemma fanout_target msg entries h m :
  (h, m) ∈ fanout msg entries ->
  exists k usr, (k, usr) ∈ entries /\ User.WS usr = h.
Proof.
  induction entries as [|[k usr] rest IH]; simpl; intros Hin.
  - by apply elem_of_nil in Hin.
  - case_decide.
    + destruct (IH Hin) as (k' & usr' & Hin' & Hws).
      exists k', usr'. split; [by right | done].
    + apply elem_of_cons in Hin as [Heq|Hin].
      * injection Heq as -> _. exists k, usr. split; [by left | done].
      * destruct (IH Hin) as (k' & usr' & Hin' & Hws).
        exists k', usr'. split; [by right | done].
Qed.

Lemma step_wire_ok s e s' :
  Inv s -> wire_ok s -> step s e = Some s' -> wire_ok s'.
Proof.
  intros HI Hw H h m Hin Hun.
  pose proof (step_unregistered _ _ _ _ H Hun) as Hun0.
  destruct e; step_cases H; simpl in *; try (by apply (Hw h m)).
  - (* line 129 *)
    apply elem_of_app in Hin as [Hin|Hin]; [by apply (Hw h m)|].
    apply fanout_target in Hin as (k & usr & Hin & Hws).
    apply elem_of_map_to_list in Hin.
    destruct (inv_users _ HI _ _ Hin) as [_ Hid].
    rewrite Hws in Hid. destruct (pc_of s h); done.
  - (* line 131 *)
    apply elem_of_app in Hin as [Hin|Hin]; [by apply (Hw h m)|].
    apply list_elem_of_singleton in Hin. simplify_eq.
    rewrite H0 in Hun0. done.
Qed.

Lemma run_wire_ok tr : forall s s',
  Inv s -> wire_ok s -> run s tr = Some s' -> wire_ok s'.
Proof.
  induction tr as [|e tr IH]; intros s s' HI Hw H; simpl in H.
  - by simplify_eq.
  - destruct (step s e) as [s1|] eqn:Hs; [|done].
    eapply IH; [by eapply step_Inv | by eapply step_wire_ok | exact H].
Qed.

(** X20.  Nothing is ever sent to a connection that has not completed
    its handshake: as long as a connection has not been registered, no
    fan-out and no echo has written to its websocket. *)
Theorem nothing_sent_before_registration (s : State) (c : nat) :
  reachable s -> unregistered (pc_of s c) -> received c (wire s) = [].
Proof.
  intros (t0 & tr & Hrun) Hun.
  assert (Hw : wire_ok s).
  { eapply run_wire_ok; [apply init_Inv | | exact Hrun].
    intros h m Hin. by apply elem_of_nil in Hin. }
  unfold received. rewrite filter_none; [done|].
  apply Forall_forall. intros [h m] Hin Hh. simpl in Hh. subst h.
  by apply (Hw c m).
Qed.

Lemma nothing_sent_before_registration_witness :
  reachable (after (race_trace ++ [RecvIdentity 3 (Some "carol"%string)])) /\
  unregistered
    (pc_of (after (race_trace ++ [RecvIdentity 3 (Some "carol"%string)])) 3) /\
  received 3
    (wire (after (race_trace ++ [RecvIdentity 3 (Some "carol"%string)]))) = [].
Proof.
  assert (Hr : reachable
                 (after (race_trace ++ [RecvIdentity 3 (Some "carol"%string)]))).
  { exists 0, (race_trace ++ [RecvIdentity 3 (Some "carol"%string)]).
    vm_compute. reflexivity. }
  assert (Hu : unregistered
                 (pc_of (after (race_trace
                                ++ [RecvIdentity 3 (Some "carol"%string)])) 3)).
  { vm_compute. exact I. }
  split; [exact Hr|]. split; [exact Hu|].
  exact (nothing_sent_before_registration _ _ Hr Hu).
Defined.
